(** * Video streaming server: chunked ingestion, processing status and
      byte-range streaming

    A shallow embedding of [main.py] (the FastAPI application with the
    [/api/upload], [/api/video/{id}], [/api/stream/{id}] and
    [DELETE /api/video/{id}] routes and the background [process_video]
    task), followed by the properties of its ingestion and range-serving
    core.

    Conventions of the embedding:
    - Python [str] values are [string]s of 8-bit characters (header values
      are latin-1 decoded by the framework, so this is exact for them);
      Python [int] is [Z];
    - a file is the [list byte] of its content, the file system a finite map
      from path strings to contents, a table a finite map from primary key
      to row;
    - a request handler is a computation in a state-and-exception monad
      over the committed database, the file system and the pool of
      background tasks; what a handler committed before raising stays
      committed;
    - a handler, and each of the two segments of a background task, runs
      without interleaving; the body of a streaming response is the list of
      chunks its generator yields on the file as the handler found it. *)

From Stdlib Require Import ZArith Ascii String List Lia Strings.Byte.
From stdpp Require Import gmap strings list fin_maps pretty sorting.
From Equations Require Import Equations.

Open Scope string_scope.
Open Scope Z_scope.

(** ** Python string operations used by the handlers *)

Module PyStr.

(** [str.lower] on the characters [A]-[Z]; other characters of the 8-bit
    range are left alone. *)
Definition lower_char (c : ascii) : ascii :=
  let n := nat_of_ascii c in
  if ((65 <=? n)%nat && (n <=? 90)%nat)%bool then ascii_of_nat (n + 32) else c.

Fixpoint lower (s : string) : string :=
  match s with
  | EmptyString => EmptyString
  | String c r => String (lower_char c) (lower r)
  end.

(** [s.startswith(p)] *)
Fixpoint startswith (p s : string) : bool :=
  match p, s with
  | EmptyString, _ => true
  | String a p', String b s' => if Ascii.eqb a b then startswith p' s' else false
  | String _ _, EmptyString => false
  end.

(** [s.replace(pat, "")] for a non-empty [pat]: occurrences are found
    from the left and do not overlap.  [skip] counts the characters of
    an occurrence that are still to be dropped. *)
Fixpoint remove_go (pat : string) (skip : nat) (s : string) : string :=
  match s with
  | EmptyString => EmptyString
  | String c r =>
      match skip with
      | S k => remove_go pat k r
      | O =>
          if startswith pat s
          then remove_go pat (String.length pat - 1) r
          else String c (remove_go pat 0 r)
      end
  end.

Definition remove (pat s : string) : string := remove_go pat 0 s.

(** [s.split(sep)] for a one-character separator: always at least one
    piece. *)
Fixpoint split (sep : ascii) (s : string) : list string :=
  match s with
  | EmptyString => [EmptyString]
  | String c r =>
      if Ascii.eqb c sep then EmptyString :: split sep r
      else match split sep r with
           | p :: ps => String c p :: ps
           | [] => [String c EmptyString]
           end
  end.

(** [s.rfind(c)]: index of the last occurrence, [-1] when absent. *)
Fixpoint rfind_go (c : ascii) (s : string) (i : Z) (last : Z) : Z :=
  match s with
  | EmptyString => last
  | String a r => rfind_go c r (i + 1) (if Ascii.eqb a c then i else last)
  end.

Definition rfind (c : ascii) (s : string) : Z := rfind_go c s 0 (-1).

(** [s[i:]] for [0 <= i]. *)
Fixpoint from (i : nat) (s : string) : string :=
  match i, s with
  | O, _ => s
  | S k, String _ r => from k r
  | S _, EmptyString => EmptyString
  end.

(** [c in s] for a character [c]. *)
Fixpoint contains (c : ascii) (s : string) : bool :=
  match s with
  | EmptyString => false
  | String a r => Ascii.eqb a c || contains c r
  end.

(** Characters that [int()] skips around a literal: tab to carriage
    return, the space, and the two white-space characters of the upper half
    of the 8-bit range. *)
Definition isspace (c : ascii) : bool :=
  let n := nat_of_ascii c in
  (((9 <=? n)%nat && (n <=? 13)%nat) || (n =? 32)%nat
   || (n =? 133)%nat || (n =? 160)%nat)%bool.

Fixpoint lstrip (s : string) : string :=
  match s with
  | EmptyString => EmptyString
  | String c r => if isspace c then lstrip r else s
  end.

Fixpoint rev_onto (s acc : string) : string :=
  match s with
  | EmptyString => acc
  | String c r => rev_onto r (String c acc)
  end.

Definition strip (s : string) : string :=
  rev_onto (lstrip (rev_onto (lstrip s) EmptyString)) EmptyString.

Definition digit_val (c : ascii) : option Z :=
  let n := nat_of_ascii c in
  if ((48 <=? n)%nat && (n <=? 57)%nat)%bool then Some (Z.of_nat (n - 48)) else None.

(** Digits of a decimal literal: underscores are allowed between two
    digits only.  Returns the value and the number of digits read. *)
Fixpoint digits_go (s : string) (acc : Z) (n : nat) (after_digit : bool)
  : option (Z * nat) :=
  match s with
  | EmptyString => if after_digit then Some (acc, n) else None
  | String c r =>
      match digit_val c with
      | Some d => digits_go r (10 * acc + d) (S n) true
      | None =>
          if (Ascii.eqb c "_" && after_digit)%bool
          then digits_go r acc n false
          else None
      end
  end.

(** The interpreter's cap on the length of a decimal literal. *)
Definition MAX_STR_DIGITS : nat := 4300.

Definition unsigned_int (s : string) : option Z :=
  match digits_go s 0 0 false with
  | Some (v, n) => if (MAX_STR_DIGITS <? n)%nat then None else Some v
  | None => None
  end.

(** [int(s)]: [None] stands for [ValueError]. *)
Definition int (s : string) : option Z :=
  match strip s with
  | String "+" r => unsigned_int r
  | String "-" r => Z.opp <$> unsigned_int r
  | t => unsigned_int t
  end.

(** [str(n)] for an [int]. *)
Definition str (n : Z) : string := pretty n.

End PyStr.

(** ** [pathlib]: the final component of a path and its suffix *)

Module PyPath.

(** [PurePosixPath(p).name]: the last component once empty and ["."]
    components are dropped, [""] when none is left. *)
Definition name (p : string) : string :=
  let parts :=
    List.filter (fun x => negb (String.eqb x "" || String.eqb x "."))
                (PyStr.split "/" p) in
  default EmptyString (last parts).

(** [PurePosixPath(p).suffix]: from the last dot of the name on, unless
    that dot is the first or the last character of the name. *)
Definition suffix (p : string) : string :=
  let nm := name p in
  let i := PyStr.rfind "." nm in
  if ((0 <? i) && (i <? Z.of_nat (String.length nm) - 1))%bool
  then PyStr.from (Z.to_nat i) nm
  else EmptyString.

(** [UPLOAD_DIR / filename] for a relative one-component [filename]. *)
Definition join (dir filename : string) : string := dir +:+ "/" +:+ filename.

End PyPath.

(** ** Binary files *)

Module FileIO.

(** [CHUNK_SIZE = 1024 * 1024] *)
Definition CHUNK_SIZE : Z := 1024 * 1024.

(** An open file is represented by the bytes from its position to its end.
    [f.read(n)] returns the chunk read and the file behind it: at most [n]
    bytes, or everything that is left when [n] is negative. *)
Definition read (n : Z) (rest : list byte) : list byte * list byte :=
  if n <? 0 then (rest, [])
  else (take (Z.to_nat n) rest, drop (Z.to_nat n) rest).

(** [f.seek(start)] on a file just opened: [None] is the [OSError] of a
    negative offset; seeking past the end is allowed. *)
Definition seek (start : Z) (content : list byte) : option (list byte) :=
  if start <? 0 then None else Some (drop (Z.to_nat start) content).

Definition inspect {A : Type} (a : A) : {b : A | a = b} := exist _ a eq_refl.

Lemma read_shrinks n rest chunk rest' :
  read n rest = (chunk, rest') -> chunk <> [] ->
  (length rest' < length rest)%nat.
Proof.
  unfold read. destruct (n <? 0) eqn:Hn; intros [= <- <-] Hne.
  - destruct rest; [congruence | simpl; lia].
  - destruct (Z.to_nat n) as [|k]; [now rewrite take_0 in Hne |].
    destruct rest as [|b rest]; [now rewrite take_nil in Hne |].
    rewrite length_drop. simpl. lia.
Qed.

(** The generator of a full response:
[[
    while chunk := await f.read(CHUNK_SIZE):
        yield chunk
]]
    as the list of the chunks it yields, for a chunk size [cs]. *)
Equations? full_chunks (cs : Z) (rest : list byte) : list (list byte)
  by wf (length rest) lt :=
  full_chunks cs rest with inspect (read cs rest) := {
    | exist _ ([], _) _ := [];
    | exist _ (b :: chunk, rest') Hread := (b :: chunk) :: full_chunks cs rest' }.
Proof. eapply read_shrinks; [exact Hread | discriminate]. Qed.

(** The loop of a range response, after the seek:
[[
    remaining = end - start + 1
    while remaining > 0:
        chunk_size = min(CHUNK_SIZE, remaining)
        data = await f.read(chunk_size)
        if not data:
            break
        remaining -= len(data)
        yield data
]] *)
Equations? range_chunks (cs : Z) (rest : list byte) (remaining : Z)
  : list (list byte) by wf (Z.to_nat remaining) lt :=
  range_chunks cs rest remaining with Z_lt_dec 0 remaining := {
    | right _ := [];
    | left Hpos with inspect (read (Z.min cs remaining) rest) := {
        | exist _ ([], _) _ := [];
        | exist _ (b :: data, rest') _ :=
            (b :: data)
              :: range_chunks cs rest' (remaining - Z.of_nat (length (b :: data))) } }.
Proof. simpl length. lia. Qed.

(** The writing loop of an upload:
[[
    file_size = 0
    while chunk := await file.read(CHUNK_SIZE):
        await f.write(chunk)
        file_size += len(chunk)
]]
    [rest] is the unread part of the upload, [written] what the target
    file holds, [k] counts the calls of [f.write] and [fault] names the
    call that raises [OSError], if one does; a call that raises writes
    nothing.  The result is the content of the target file, with the
    final [file_size] when the loop ran to the end of the upload. *)
Equations? write_chunks (cs : Z) (fault : option nat) (k : nat)
  (rest written : list byte) (file_size : Z)
  : list byte * option Z by wf (length rest) lt :=
  write_chunks cs fault k rest written file_size with inspect (read cs rest) := {
    | exist _ ([], _) _ := (written, Some file_size);
    | exist _ (b :: chunk, rest') Hread :=
        if decide (fault = Some k) then (written, None)
        else write_chunks cs fault (S k) rest' (written ++ b :: chunk)%list
               (file_size + Z.of_nat (length (b :: chunk))) }.
Proof. eapply read_shrinks; [exact Hread | discriminate]. Qed.

End FileIO.

(** ** Tables *)

Module User.

Record t := mk {
  id : Z;
  username : string;
  email : string;
  hashed_password : string;
  created_at : string
}.

End User.

Module Video.

(** A row of [videos].  [upload_date] is kept in the ISO text that
    [isoformat()] renders. *)
Record t := mk {
  id : Z;
  title : string;
  description : option string;
  filename : string;
  original_filename : string;
  file_size : Z;
  duration : option Z;
  thumbnail_path : option string;
  processed : bool;
  processing_status : string;
  upload_date : string;
  views : Z;
  user_id : Z
}.

(** An attribute assignment on a loaded row, as the session tracks it
    until the next commit. *)
Inductive assign :=
| SetDuration (d : Z)
| SetProcessed (b : bool)
| SetProcessingStatus (st : string)
| SetThumbnailPath (p : string)
| SetViews (n : Z).

Definition set (a : assign) (v : t) : t :=
  match a with
  | SetDuration d =>
      mk (id v) (title v) (description v) (filename v) (original_filename v)
         (file_size v) (Some d) (thumbnail_path v) (processed v)
         (processing_status v) (upload_date v) (views v) (user_id v)
  | SetProcessed b =>
      mk (id v) (title v) (description v) (filename v) (original_filename v)
         (file_size v) (duration v) (thumbnail_path v) b
         (processing_status v) (upload_date v) (views v) (user_id v)
  | SetProcessingStatus st =>
      mk (id v) (title v) (description v) (filename v) (original_filename v)
         (file_size v) (duration v) (thumbnail_path v) (processed v)
         st (upload_date v) (views v) (user_id v)
  | SetThumbnailPath p =>
      mk (id v) (title v) (description v) (filename v) (original_filename v)
         (file_size v) (duration v) (Some p) (processed v)
         (processing_status v) (upload_date v) (views v) (user_id v)
  | SetViews n =>
      mk (id v) (title v) (description v) (filename v) (original_filename v)
         (file_size v) (duration v) (thumbnail_path v) (processed v)
         (processing_status v) (upload_date v) n (user_id v)
  end.

(** The assignments of a session, oldest first, applied to the stored row. *)
Definition flush (dirty : list assign) (v : t) : t :=
  fold_left (fun row a => set a row) dirty v.

End Video.

(** ** Server state, exceptions and the handler monad *)

(** A [process_video] task between two of its suspension points. *)
Inductive task :=
| Scheduled   (** created by [asyncio.create_task], not yet started *)
| Sleeping    (** suspended in [asyncio.sleep(2)] *)
| Finished.   (** returned, or ended by an exception *)

Record Sys := mkSys {
  users : list User.t;              (** table [users], oldest row first *)
  videos : gmap Z Video.t;          (** table [videos], by primary key *)
  next_video_id : Z;                (** next primary key of [videos] *)
  files : gmap string (list byte);  (** the file system, by path *)
  tasks : gmap Z task               (** background tasks, by [video_id] argument *)
}.

Inductive exn :=
| HTTPException (status_code : Z) (detail : string)
| ValueError
| IndexError
| OSError
| IntegrityError
| StaleDataError.

Inductive result (A : Type) :=
| Ok (a : A)
| Raise (e : exn).
Arguments Ok {A} a.
Arguments Raise {A} e.

Definition M (A : Type) : Type := Sys -> result A * Sys.

Definition ret {A} (a : A) : M A := fun s => (Ok a, s).

Definition raise {A} (e : exn) : M A := fun s => (Raise e, s).

Definition bind {A B} (c : M A) (k : A -> M B) : M B :=
  fun s => match c s with
           | (Ok a, s') => k a s'
           | (Raise e, s') => (Raise e, s')
           end.

Notation "'let*' x ':=' c 'in' k" := (bind c (fun x => k))
  (at level 10, x pattern, c at level 100, k at level 200).
Notation "'run*' c 'in' k" := (bind c (fun _ => k))
  (at level 10, c at level 100, k at level 200).

Definition gets {A} (f : Sys -> A) : M A := fun s => (Ok (f s), s).

Definition modify (f : Sys -> Sys) : M unit := fun s => (Ok tt, f s).

Definition set_users (us : list User.t) (s : Sys) : Sys :=
  mkSys us (videos s) (next_video_id s) (files s) (tasks s).

Definition set_videos (vs : gmap Z Video.t) (s : Sys) : Sys :=
  mkSys (users s) vs (next_video_id s) (files s) (tasks s).

Definition set_next_video_id (n : Z) (s : Sys) : Sys :=
  mkSys (users s) (videos s) n (files s) (tasks s).

Definition set_files (fs : gmap string (list byte)) (s : Sys) : Sys :=
  mkSys (users s) (videos s) (next_video_id s) fs (tasks s).

Definition set_tasks (ts : gmap Z task) (s : Sys) : Sys :=
  mkSys (users s) (videos s) (next_video_id s) (files s) ts.

(** [db.query(Video).filter(Video.id == video_id).first()] *)
Definition query_video (video_id : Z) : M (option Video.t) :=
  gets (fun s => videos s !! video_id).

(** Assignments on the loaded row [video_id] followed by [db.commit()]:
    an [UPDATE] of the assigned columns of that row, which raises when the
    row is gone. *)
Definition commit_assign (video_id : Z) (dirty : list Video.assign) : M unit :=
  fun s => match videos s !! video_id with
           | Some row =>
               (Ok tt, set_videos (<[video_id := Video.flush dirty row]> (videos s)) s)
           | None => (Raise StaleDataError, s)
           end.

Definition UPLOAD_DIR : string := "uploads".

(** What a handler returns. *)
Record VideoInfo := mkVideoInfo {
  info_id : Z;
  info_title : string;
  info_description : option string;
  info_duration : option Z;
  info_views : Z;
  info_upload_date : string;
  info_processed : bool
}.

Inductive response :=
| RegisterReply (message : string) (user_id : Z)
| UploadReply (message : string) (video_id : Z) (status : string)
| InfoReply (info : VideoInfo)
| DeleteReply (message : string)
| StreamingResponse (body : result (list (list byte))) (status_code : Z)
                    (media_type : option string) (headers : list (string * string)).

(** ** The request handlers *)

Section Server.

(** The two collaborators of the authentication utilities:
    [jwt.decode(token, SECRET_KEY, algorithms=[ALGORITHM])] followed by
    [payload.get("sub")] ([None] when decoding raises [PyJWTError],
    [Some None] when the payload has no subject), and
    [pwd_context.hash]. *)
Variable jwt_decode : string -> option (option string).
Variable get_password_hash : string -> string.

Definition credentials_exception : exn :=
  HTTPException 401 "Could not validate credentials".

(** [db.query(User).filter(User.username == username).first()] *)
Definition query_user_by_name (name : string) : M (option User.t) :=
  gets (fun s => List.find (fun u => String.eqb (User.username u) name) (users s)).

Definition query_user_by_email (mail : string) : M (option User.t) :=
  gets (fun s => List.find (fun u => String.eqb (User.email u) mail) (users s)).

(** [get_current_user]; a request without [token] passes [None], which
    [jwt.decode] refuses. *)
Definition get_current_user (token : option string) : M User.t :=
  match token ≫= jwt_decode with
  | None => raise credentials_exception
  | Some None => raise credentials_exception
  | Some (Some name) =>
      let* user := query_user_by_name name in
      match user with
      | None => raise credentials_exception
      | Some u => ret u
      end
  end.

(** [POST /api/register] *)
Definition register (username email password now : string) : M response :=
  let* by_name := query_user_by_name username in
  if bool_decide (is_Some by_name)
  then raise (HTTPException 400 "Username already registered") else
  let* by_email := query_user_by_email email in
  if bool_decide (is_Some by_email)
  then raise (HTTPException 400 "Email already registered") else
  let hashed_password := get_password_hash password in
  let* uid := gets (fun s => Z.of_nat (length (users s)) + 1) in
  run* modify (fun s =>
    set_users (users s ++ [User.mk uid username email hashed_password now])%list s) in
  ret (RegisterReply "User created successfully" uid).

(** The uploaded file of a request: its name, its bytes, and the size the
    client declared for it. *)
Record UploadFile := mkUploadFile {
  upload_filename : string;
  upload_data : list byte;
  upload_size : option Z
}.

(** What the environment contributes to one upload: the value of
    [uuid.uuid4()], the clock, and the call of [f.write] that fails. *)
Record UploadEnv := mkUploadEnv {
  uuid4 : string;
  utcnow : string;
  write_fault : option nat
}.

Definition allowed_extensions : gset string :=
  {[ ".mp4"; ".avi"; ".mov"; ".mkv"; ".webm"; ".flv" ]}.

(** [filename] is declared [unique]. *)
Definition filename_taken (name : string) (vs : gmap Z Video.t) : bool :=
  existsb (fun kv => String.eqb (Video.filename kv.2) name) (map_to_list vs).

(** [db.add(video); db.commit(); db.refresh(video)]: the row receives the
    next primary key and the column defaults.  Keys are handed out in
    increasing order, and the key of a deleted row is not handed out
    again. *)
Definition add_video (title : string) (description : option string)
  (filename original_filename : string) (file_size : Z) (owner : Z)
  (now : string) : M Video.t :=
  fun s =>
    if filename_taken filename (videos s) then (Raise IntegrityError, s)
    else
      let row := Video.mk (next_video_id s) title description filename
                   original_filename file_size None None false "pending"
                   now 0 owner in
      (Ok row,
       set_next_video_id (next_video_id s + 1)
         (set_videos (<[next_video_id s := row]> (videos s)) s)).

(** [asyncio.create_task(process_video(file_path, video.id, db))] *)
Definition create_task (video_id : Z) : M unit :=
  modify (fun s => set_tasks (<[video_id := Scheduled]> (tasks s)) s).

Definition write_file (path : string) (content : list byte) : M unit :=
  modify (fun s => set_files (<[path := content]> (files s)) s).

(** [POST /api/upload] *)
Definition upload_video (file : UploadFile) (title description token : option string)
  (env : UploadEnv) : M response :=
  let* user := get_current_user token in
  let file_ext := PyStr.lower (PyPath.suffix (upload_filename file)) in
  if negb (bool_decide (file_ext ∈ allowed_extensions))
  then raise (HTTPException 400 "Invalid file type") else
  let unique_filename := uuid4 env +:+ file_ext in
  let file_path := PyPath.join UPLOAD_DIR unique_filename in
  run* write_file file_path [] in
  let saved := FileIO.write_chunks FileIO.CHUNK_SIZE (write_fault env) 0
                 (upload_data file) [] 0 in
  run* write_file file_path saved.1 in
  match saved.2 with
  | None => raise OSError
  | Some file_size =>
      let shown := match title with
                   | Some (String c t) => String c t
                   | _ => upload_filename file
                   end in
      let* video := add_video shown description unique_filename
                      (upload_filename file) file_size (User.id user) (utcnow env) in
      run* create_task (Video.id video) in
      ret (UploadReply "Video uploaded successfully" (Video.id video) "processing")
  end.

(** [GET /api/video/{video_id}] *)
Definition get_video_info (video_id : Z) : M response :=
  let* video := query_video video_id in
  match video with
  | None => raise (HTTPException 404 "Video not found")
  | Some v =>
      ret (InfoReply (mkVideoInfo (Video.id v) (Video.title v) (Video.description v)
                        (Video.duration v) (Video.views v) (Video.upload_date v)
                        (Video.processed v)))
  end.

(** The two lines that read the [Range] header:
[[
    byte_range = range_header.replace("bytes=", "").split("-")
    start = int(byte_range[0]) if byte_range[0] else 0
    end = int(byte_range[1]) if byte_range[1] else file_size - 1
]] *)
Definition parse_range (range_header : string) (file_size : Z) : result (Z * Z) :=
  let byte_range := PyStr.split "-" (PyStr.remove "bytes=" range_header) in
  let start :=
    match byte_range !! 0%nat with
    | None => Raise IndexError
    | Some EmptyString => Ok 0
    | Some piece => from_option Ok (Raise ValueError) (PyStr.int piece)
    end in
  match start with
  | Raise e => Raise e
  | Ok start =>
      match byte_range !! 1%nat with
      | None => Raise IndexError
      | Some EmptyString => Ok (start, file_size - 1)
      | Some piece =>
          match PyStr.int piece with
          | Some e => Ok (start, e)
          | None => Raise ValueError
          end
      end
  end.

(** The generator [iterfile] of a range response, run on the file. *)
Definition iterfile_range (content : list byte) (start end_ : Z)
  : result (list (list byte)) :=
  match FileIO.seek start content with
  | None => Raise OSError
  | Some rest => Ok (FileIO.range_chunks FileIO.CHUNK_SIZE rest (end_ - start + 1))
  end.

(** The generator [iterfile] of a full response. *)
Definition iterfile_full (content : list byte) : result (list (list byte)) :=
  Ok (FileIO.full_chunks FileIO.CHUNK_SIZE content).

(** [GET /api/stream/{video_id}] *)
Definition stream_video (video_id : Z) (range_header : option string) : M response :=
  let* video := query_video video_id in
  match video with
  | None => raise (HTTPException 404 "Video not found")
  | Some v =>
      let file_path := PyPath.join UPLOAD_DIR (Video.filename v) in
      let* file := gets (fun s => files s !! file_path) in
      match file with
      | None => raise (HTTPException 404 "Video file not found")
      | Some content =>
          run* commit_assign video_id [Video.SetViews (Video.views v + 1)] in
          let file_size := Z.of_nat (length content) in
          match range_header with
          | Some (String c h) =>
              match parse_range (String c h) file_size with
              | Raise e => raise e
              | Ok (start, end_) =>
                  ret (StreamingResponse (iterfile_range content start end_) 206 None
                         [("Content-Range",
                           "bytes " +:+ PyStr.str start +:+ "-" +:+ PyStr.str end_
                             +:+ "/" +:+ PyStr.str file_size);
                          ("Accept-Ranges", "bytes");
                          ("Content-Length", PyStr.str (end_ - start + 1));
                          ("Content-Type", "video/mp4")])
              end
          | _ =>
              ret (StreamingResponse (iterfile_full content) 200 (Some "video/mp4")
                     [("Content-Length", PyStr.str file_size)])
          end
      end
  end.

(** [db.query(Video).filter(Video.id == video_id, Video.user_id == uid).first()] *)
Definition query_video_of (video_id uid : Z) : M (option Video.t) :=
  gets (fun s =>
    match videos s !! video_id with
    | Some v => if Video.user_id v =? uid then Some v else None
    | None => None
    end).

(** [DELETE /api/video/{video_id}] *)
Definition delete_video (video_id : Z) (token : option string) : M response :=
  let* user := get_current_user token in
  let* video := query_video_of video_id (User.id user) in
  match video with
  | None => raise (HTTPException 404 "Video not found")
  | Some v =>
      let file_path := PyPath.join UPLOAD_DIR (Video.filename v) in
      let* present := gets (fun s => bool_decide (is_Some (files s !! file_path))) in
      run* (if present
            then modify (fun s => set_files (delete file_path (files s)) s)
            else ret tt) in
      run* modify (fun s => set_videos (delete video_id (videos s)) s) in
      ret (DeleteReply "Video deleted successfully")
  end.

(** ** The background task [process_video]

    The task runs in two uninterrupted segments, before and after its
    [await asyncio.sleep(2)].  A [fault] chooses what goes wrong in a
    segment: the statement of the [try] block that raises, the text of the
    exception, and whether the [except] block can do its own query and
    commit ([handler_runs = false]: the session refuses them, or they raise
    as well, and the task ends with nothing more committed). *)

Inductive fault_line := Line153 | Line158 | Line169 | Line170.

#[global] Instance fault_line_eq_dec : EqDecision fault_line.
Proof. solve_decision. Defined.

Inductive fault :=
| NoFault
| Cancelled
| Fault (line : fault_line) (msg : string) (handler_runs : bool).

Definition raises (f : fault) (l : fault_line) : option (string * bool) :=
  match f with
  | Fault l' msg h => if decide (l' = l) then Some (msg, h) else None
  | _ => None
  end.

(** The [except Exception as e] block.  The session still holds the
    assignments [dirty] made in the [try] block; the commit writes them
    together with the new status. *)
Definition except_block (video_id : Z) (dirty : list Video.assign)
  (msg : string) (handler_runs : bool) : M unit :=
  if handler_runs then
    let* video := query_video video_id in
    match video with
    | Some _ =>
        commit_assign video_id
          (dirty ++ [Video.SetProcessingStatus ("failed: " +:+ msg)])%list
    | None => ret tt
    end
  else ret tt.

(** Lines 153 to 158: claim the record. *)
Definition process_video_claim (video_id : Z) (f : fault) : M task :=
  match raises f Line153 with
  | Some (msg, h) => run* except_block video_id [] msg h in ret Finished
  | None =>
      let* video := query_video video_id in
      match video with
      | None => ret Finished
      | Some _ =>
          let dirty := [Video.SetProcessingStatus "processing"] in
          match raises f Line158 with
          | Some (msg, h) => run* except_block video_id dirty msg h in ret Finished
          | None => run* commit_assign video_id dirty in ret Sleeping
          end
      end
  end.

(** Lines 166 to 170: record the result.  Reading [video.filename] on
    line 169 reloads the row, which the first commit expired, and raises
    when the row has been deleted in the meantime. *)
Definition process_video_finish (video_id : Z) (f : fault) : M task :=
  let dirty := [Video.SetDuration 120; Video.SetProcessed true;
                Video.SetProcessingStatus "completed"] in
  match raises f Line169 with
  | Some (msg, h) => run* except_block video_id dirty msg h in ret Finished
  | None =>
      let* video := query_video video_id in
      match video with
      | None =>
          run* except_block video_id dirty "Instance has been deleted" true in
          ret Finished
      | Some v =>
          let dirty := (dirty ++
            [Video.SetThumbnailPath ("thumbnails/" +:+ Video.filename v +:+ ".jpg")])%list in
          match raises f Line170 with
          | Some (msg, h) => run* except_block video_id dirty msg h in ret Finished
          | None => run* commit_assign video_id dirty in ret Finished
          end
      end
  end.

(** One scheduling of the task created for [video_id]. *)
Definition process_video_step (video_id : Z) (f : fault) : M unit :=
  let* t := gets (fun s => tasks s !! video_id) in
  let segment :=
    match t, f with
    | Some Scheduled, Cancelled | Some Sleeping, Cancelled => ret Finished
    | Some Scheduled, _ => process_video_claim video_id f
    | Some Sleeping, _ => process_video_finish video_id f
    | Some Finished, _ => ret Finished
    | None, _ => ret Finished
    end in
  match t with
  | None => ret tt
  | Some _ =>
      let* t' := segment in
      modify (fun s => set_tasks (<[video_id := t']> (tasks s)) s)
  end.

(** ** Runs of the server *)

(** What the event loop can schedule: a request of a client, or a segment
    of a background task.  The routes [/], [/api/login] and [/api/videos]
    write neither table nor file and are left out. *)
Inductive event :=
| Register (username email password now : string)
| Upload (file : UploadFile) (title description token : option string)
         (env : UploadEnv)
| Info (video_id : Z)
| Stream (video_id : Z) (range_header : option string)
| Delete (video_id : Z) (token : option string)
| Task (video_id : Z) (f : fault).

(** The state an event leaves behind, whatever it answered. *)
Definition exec (e : event) (s : Sys) : Sys :=
  match e with
  | Register u m p now => (register u m p now s).2
  | Upload file t d tok env => (upload_video file t d tok env s).2
  | Info i => (get_video_info i s).2
  | Stream i h => (stream_video i h s).2
  | Delete i tok => (delete_video i tok s).2
  | Task i f => (process_video_step i f s).2
  end.

Definition run (evs : list event) (s : Sys) : Sys :=
  fold_left (fun st e => exec e st) evs s.

End Server.

(** The server at start-up: empty tables, keys from 1, no task, and
    whatever the disk holds. *)
Definition initial (disk : gmap string (list byte)) : Sys :=
  mkSys [] ∅ 1 disk ∅.

(** The terminal values of [processing_status]. *)
Definition terminal (st : string) : bool :=
  String.eqb st "completed" || PyStr.startswith "failed" st.

(** ** Observations on responses and states *)

(** The bytes a generator yields in all. *)
Definition yielded (chunks : list (list byte)) : Z :=
  Z.of_nat (sum_list (length <$> chunks)).

(** The path of the file behind a row. *)
Definition backing_file (v : Video.t) : string :=
  PyPath.join UPLOAD_DIR (Video.filename v).

(** The state after the view of [v] has been counted and committed. *)
Definition counted (video_id : Z) (v : Video.t) (s : Sys) : Sys :=
  set_videos (<[video_id := Video.set (Video.SetViews (Video.views v + 1)) v]> (videos s)) s.

(** The headers of a range response. *)
Definition range_headers (start end_ file_size : Z) : list (string * string) :=
  [("Content-Range",
    "bytes " +:+ PyStr.str start +:+ "-" +:+ PyStr.str end_
      +:+ "/" +:+ PyStr.str file_size);
   ("Accept-Ranges", "bytes");
   ("Content-Length", PyStr.str (end_ - start + 1));
   ("Content-Type", "video/mp4")].

(** The extension the handler tests, and the path it writes to. *)
Definition extension_of (file : UploadFile) : string :=
  PyStr.lower (PyPath.suffix (upload_filename file)).

Definition target_of (file : UploadFile) (env : UploadEnv) : string :=
  PyPath.join UPLOAD_DIR (uuid4 env +:+ extension_of file).

(** ** Steps of the tables, and what runs preserve *)

(** What an event can do to the tables and the task pool. *)
Inductive db_step (s s' : Sys) : Prop :=
| step_none :
    videos s' = videos s -> next_video_id s' = next_video_id s ->
    tasks s' = tasks s -> db_step s s'
| step_insert row :
    Video.processing_status row = "pending" ->
    videos s' = <[next_video_id s := row]> (videos s) ->
    next_video_id s' = next_video_id s + 1 ->
    tasks s' = <[next_video_id s := Scheduled]> (tasks s) -> db_step s s'
| step_views i v n :
    videos s !! i = Some v ->
    videos s' = <[i := Video.set (Video.SetViews n) v]> (videos s) ->
    next_video_id s' = next_video_id s -> tasks s' = tasks s -> db_step s s'
| step_delete i :
    videos s' = delete i (videos s) ->
    next_video_id s' = next_video_id s -> tasks s' = tasks s -> db_step s s'
| step_task_end i :
    videos s' = videos s -> next_video_id s' = next_video_id s ->
    tasks s' = <[i := Finished]> (tasks s) -> db_step s s'
| step_claim i v :
    tasks s !! i = Some Scheduled ->
    videos s !! i = Some v ->
    videos s' = <[i := Video.set (Video.SetProcessingStatus "processing") v]> (videos s) ->
    next_video_id s' = next_video_id s ->
    tasks s' = <[i := Sleeping]> (tasks s) -> db_step s s'
| step_fail i v dirty msg :
    videos s !! i = Some v ->
    videos s' = <[i := Video.flush
                         (dirty ++ [Video.SetProcessingStatus ("failed: " +:+ msg)]) v]>
                  (videos s) ->
    next_video_id s' = next_video_id s ->
    tasks s' = <[i := Finished]> (tasks s) -> db_step s s'
| step_complete i v :
    videos s !! i = Some v ->
    videos s' = <[i := Video.flush
                         [Video.SetDuration 120; Video.SetProcessed true;
                          Video.SetProcessingStatus "completed";
                          Video.SetThumbnailPath
                            ("thumbnails/" +:+ Video.filename v +:+ ".jpg")] v]>
                  (videos s) ->
    next_video_id s' = next_video_id s ->
    tasks s' = <[i := Finished]> (tasks s) -> db_step s s'.

(** A completed record carries its duration and its thumbnail. *)
Definition completed_with_result (v : Video.t) : Prop :=
  Video.processing_status v = "completed" ->
  is_Some (Video.duration v) /\ is_Some (Video.thumbnail_path v).

(** The invariant of the runs. *)
Record consistent (s : Sys) : Prop := {
  keys_below : forall i v, videos s !! i = Some v -> i < next_video_id s;
  scheduled_pending :
    forall i v, tasks s !! i = Some Scheduled -> videos s !! i = Some v ->
                Video.processing_status v = "pending";
  completed_ok : forall i v, videos s !! i = Some v -> completed_with_result v
}.


(** ** A small installation to run the handlers on *)

Module Demo.

(** Collaborators: a token is the subject it stands for, the hash of a
    password is the password. *)
Definition decode (token : string) : option (option string) := Some (Some token).
Definition hash (password : string) : string := password.

Definition clip : UploadFile :=
  mkUploadFile "holiday.MP4" [x01; x02; x03; x04; x05] (Some 9000).


Definition env (name : string) (fault : option nat) : UploadEnv :=
  mkUploadEnv name "2024-01-01T00:00:00" fault.

(** The row of [clip] after the upload, and after its processing. *)
Definition pending_row : Video.t :=
  Video.mk 1 "holiday.MP4" None "c0ffee.mp4" "holiday.MP4" 5 None None false
    "pending" "2024-01-01T00:00:00" 0 1.

Definition completed_row : Video.t :=
  Video.mk 1 "holiday.MP4" None "c0ffee.mp4" "holiday.MP4" 5 (Some 120)
    (Some "thumbnails/c0ffee.mp4.jpg") true "completed" "2024-01-01T00:00:00" 0 1.

Definition ann : User.t :=
  User.mk 1 "ann" "ann@example.org" "secret" "2024-01-01T00:00:00".

(** One registered user. *)
Definition registered : Sys :=
  run decode hash [Register "ann" "ann@example.org" "secret" "2024-01-01T00:00:00"]
    (initial ∅).

(** The user has uploaded [clip]; its task has not started. *)
Definition uploaded : Sys :=
  run decode hash [Upload clip None None (Some "ann") (env "c0ffee" None)] registered.

(** The task has claimed the record and sleeps. *)
Definition claimed : Sys := run decode hash [Task 1 NoFault] uploaded.

(** The task has finished. *)
Definition processed : Sys := run decode hash [Task 1 NoFault] claimed.

End Demo.

(** ** Decimal texts *)

(** The texts made of the characters [0] to [9] only. *)
Fixpoint all_digits (s : string) : bool :=
  match s with
  | EmptyString => true
  | String a r => bool_decide (is_Some (PyStr.digit_val a)) && all_digits r
  end.

(** ** Login and listing *)

(** A value of a token payload: a text, or a time in seconds. *)
Inductive claim :=
| ClaimStr (text : string)
| ClaimTime (seconds : Z).

(** The reply of [/api/login]. *)
Record Token := mkToken {
  access_token : string;
  token_type : string
}.

(** An entry of the reply of [/api/videos]. *)
Record VideoItem := mkVideoItem {
  item_id : Z;
  item_title : string;
  item_description : option string;
  item_filename : string;
  item_duration : option Z;
  item_views : Z;
  item_upload_date : string;
  item_processed : bool;
  item_processing_status : string
}.

Definition item_of (v : Video.t) : VideoItem :=
  mkVideoItem (Video.id v) (Video.title v) (Video.description v) (Video.filename v)
    (Video.duration v) (Video.views v) (Video.upload_date v) (Video.processed v)
    (Video.processing_status v).

(** The rows of [videos] as a scan of the table returns them, by
    ascending primary key. *)
Definition key_le (x y : Z * Video.t) : Prop := x.1 <= y.1.

#[global] Instance key_le_dec : RelDecision key_le := fun x y => decide (x.1 <= y.1).

Definition rows_by_key (vs : gmap Z Video.t) : list Video.t :=
  (merge_sort key_le (map_to_list vs)).*2.

(** [.offset(skip).limit(limit)] as the default store reads them: a
    negative offset is no offset, a negative limit is no limit. *)
Definition offset_limit {A} (skip limit : Z) (rows : list A) : list A :=
  let rest := drop (Z.to_nat skip) rows in
  if limit <? 0 then rest else take (Z.to_nat limit) rest.

Section Accounts.

(** [pwd_context.verify] and [jwt.encode(payload, SECRET_KEY, algorithm=ALGORITHM)]. *)
Variable jwt_decode : string -> option (option string).
Variable verify_password : string -> string -> bool.
Variable jwt_encode : gmap string claim -> string.

Definition ACCESS_TOKEN_EXPIRE_MINUTES : Z := 30.

(** [create_access_token(data)], at the time [now] in seconds. *)
Definition create_access_token (data : gmap string claim) (now : Z) : string :=
  let to_encode := data in
  let expire := now + ACCESS_TOKEN_EXPIRE_MINUTES * 60 in
  let to_encode := <["exp" := ClaimTime expire]> to_encode in
  jwt_encode to_encode.

(** [POST /api/login] *)
Definition login (username password : string) (now : Z) : M Token :=
  let* user := query_user_by_name username in
  match user with
  | Some u =>
      if verify_password password (User.hashed_password u)
      then ret (mkToken
                  (create_access_token {["sub" := ClaimStr (User.username u)]} now)
                  "bearer")
      else raise (HTTPException 401 "Incorrect username or password")
  | None => raise (HTTPException 401 "Incorrect username or password")
  end.

(** [GET /api/videos] *)
Definition list_videos (skip limit : Z) (token : option string) : M (list VideoItem) :=
  let* user := get_current_user jwt_decode token in
  let* rows := gets (fun s =>
    offset_limit skip limit
      (List.filter (fun v => Video.user_id v =? User.id user)
                   (rows_by_key (videos s)))) in
  ret (item_of <$> rows).

End Accounts.

(** ** What each event does to the state *)

(** The fields of a record that no handler assigns after the insert. *)
Definition same_identity (v w : Video.t) : Prop :=
  Video.id w = Video.id v /\ Video.title w = Video.title v /\
  Video.description w = Video.description v /\
  Video.filename w = Video.filename v /\
  Video.original_filename w = Video.original_filename v /\
  Video.file_size w = Video.file_size v /\
  Video.upload_date w = Video.upload_date v /\
  Video.user_id w = Video.user_id v.

(** [f"thumbnails/{video.filename}.jpg"] *)
Definition thumbnail_of (v : Video.t) : string :=
  "thumbnails/" +:+ Video.filename v +:+ ".jpg".

(** The assignments of the [try] block of [process_video], in order. *)
Definition result_assigns (v : Video.t) : list Video.assign :=
  [Video.SetDuration 120; Video.SetProcessed true;
   Video.SetProcessingStatus "completed";
   Video.SetThumbnailPath (thumbnail_of v)].

(** What the session of a task can hold when its [except] block commits. *)
Definition task_dirty (v : Video.t) (dirty : list Video.assign) : Prop :=
  dirty = [] \/ dirty = [Video.SetProcessingStatus "processing"] \/
  dirty = take 3 (result_assigns v) \/ dirty = result_assigns v.

Inductive table_step (s s' : Sys) : Prop :=
| ts_same :
    users s' = users s -> videos s' = videos s ->
    next_video_id s' = next_video_id s -> table_step s s'
| ts_register u :
    User.id u = Z.of_nat (length (users s)) + 1 ->
    User.username u ∉ User.username <$> users s ->
    User.email u ∉ User.email <$> users s ->
    users s' = (users s ++ [u])%list -> videos s' = videos s ->
    next_video_id s' = next_video_id s -> files s' = files s -> table_step s s'
| ts_insert row :
    Video.id row = next_video_id s ->
    Video.duration row = None -> Video.thumbnail_path row = None ->
    Video.processed row = false -> Video.processing_status row = "pending" ->
    Video.views row = 0 ->
    filename_taken (Video.filename row) (videos s) = false ->
    users s' = users s ->
    videos s' = <[next_video_id s := row]> (videos s) ->
    next_video_id s' = next_video_id s + 1 -> table_step s s'
| ts_view i v :
    videos s !! i = Some v ->
    users s' = users s ->
    videos s' = <[i := Video.set (Video.SetViews (Video.views v + 1)) v]> (videos s) ->
    next_video_id s' = next_video_id s -> files s' = files s -> table_step s s'
| ts_delete i v :
    videos s !! i = Some v ->
    users s' = users s -> videos s' = delete i (videos s) ->
    next_video_id s' = next_video_id s ->
    files s' = delete (backing_file v) (files s) -> table_step s s'
| ts_claim i v :
    tasks s !! i = Some Scheduled ->
    videos s !! i = Some v ->
    users s' = users s ->
    videos s' = <[i := Video.set (Video.SetProcessingStatus "processing") v]> (videos s) ->
    next_video_id s' = next_video_id s -> files s' = files s -> table_step s s'
| ts_fail i v dirty msg :
    videos s !! i = Some v ->
    task_dirty v dirty ->
    users s' = users s ->
    videos s' = <[i := Video.flush
                         (dirty ++ [Video.SetProcessingStatus ("failed: " +:+ msg)]) v]>
                  (videos s) ->
    next_video_id s' = next_video_id s -> files s' = files s -> table_step s s'
| ts_complete i v :
    videos s !! i = Some v ->
    users s' = users s ->
    videos s' = <[i := Video.flush (result_assigns v) v]> (videos s) ->
    next_video_id s' = next_video_id s -> files s' = files s -> table_step s s'.

(** The three ways a scheduling of the task of [video_id] can end. *)
Definition task_outcome (video_id : Z) (s s' : Sys) : Prop :=
  users s' = users s /\ files s' = files s /\ next_video_id s' = next_video_id s /\
  (videos s' = videos s \/
   exists v,
     videos s !! video_id = Some v /\
     ((tasks s !! video_id = Some Scheduled /\
       videos s' = <[video_id := Video.set (Video.SetProcessingStatus "processing") v]>
                     (videos s)) \/
      (exists dirty msg,
         task_dirty v dirty /\
         videos s' = <[video_id := Video.flush
                          (dirty ++ [Video.SetProcessingStatus ("failed: " +:+ msg)]) v]>
                       (videos s)) \/
      (tasks s !! video_id = Some Sleeping /\
       videos s' = <[video_id := Video.flush (result_assigns v) v]> (videos s)))).

(** How far the processing of a record has written its results. *)
Definition bare (v : Video.t) : Prop :=
  Video.duration v = None /\ Video.thumbnail_path v = None /\ Video.processed v = false.

Definition measured (v : Video.t) : Prop :=
  Video.duration v = Some 120 /\ Video.thumbnail_path v = None /\
  Video.processed v = true.

Definition finished (v : Video.t) : Prop :=
  Video.duration v = Some 120 /\ Video.thumbnail_path v = Some (thumbnail_of v) /\
  Video.processed v = true.

Definition known_status (st : string) : Prop :=
  st = "pending" \/ st = "processing" \/ st = "completed" \/
  PyStr.startswith "failed: " st = true.

Definition processing_shape (v : Video.t) : Prop :=
  known_status (Video.processing_status v) /\
  (bare v \/ measured v \/ finished v) /\
  (Video.processing_status v = "pending" \/ Video.processing_status v = "processing" ->
   bare v) /\
  (Video.processing_status v = "completed" -> finished v).

(** What every state of a run satisfies, beside [consistent]. *)
Record coherent (s : Sys) : Prop := {
  next_positive : 1 <= next_video_id s;
  row_key : forall i v, videos s !! i = Some v -> Video.id v = i /\ 1 <= i;
  filenames_distinct :
    forall i j v w, videos s !! i = Some v -> videos s !! j = Some w ->
                    Video.filename v = Video.filename w -> i = j;
  views_counted : forall i v, videos s !! i = Some v -> 0 <= Video.views v;
  rows_shaped : forall i v, videos s !! i = Some v -> processing_shape v;
  user_ids : forall k u, users s !! k = Some u -> User.id u = Z.of_nat k + 1;
  usernames_distinct : NoDup (User.username <$> users s);
  emails_distinct : NoDup (User.email <$> users s)
}.

(** ** A second user on the small installation *)

Module Demo2.
Import Demo.

(** Collaborators: a password verifies against itself, a token is the
    subject of its payload. *)
Definition verify (plain hashed : string) : bool := String.eqb plain hashed.

Definition encode (payload : gmap string claim) : string :=
  match payload !! "sub" with
  | Some (ClaimStr sub) => sub
  | _ => EmptyString
  end.

Definition bob : User.t :=
  User.mk 2 "bob" "bob@example.org" "hunter2" "2024-01-02T00:00:00".

Definition talk : UploadFile := mkUploadFile "talk.webm" [x0a; x0b; x0c] None.

Definition other : UploadFile := mkUploadFile "other.mp4" [xff] None.

(** Everything up to the finished processing of [clip]. *)
Definition history : list event :=
  [Register "ann" "ann@example.org" "secret" "2024-01-01T00:00:00";
   Upload clip None None (Some "ann") (env "c0ffee" None);
   Task 1 NoFault; Task 1 NoFault].

(** Then [bob] registers and uploads [talk]. *)
Definition sequel : list event :=
  [Register "bob" "bob@example.org" "hunter2" "2024-01-02T00:00:00";
   Upload talk (Some "Talk") None (Some "bob") (env "decaf" None)].

Definition shared : Sys := run decode hash (history ++ sequel) (initial ∅).

Definition talk_row : Video.t :=
  Video.mk 2 "Talk" None "decaf.webm" "talk.webm" 3 None None false
    "pending" "2024-01-01T00:00:00" 0 2.

End Demo2.

(** * Properties *)

(** ** The string operations on examples *)

Module PyFacts.

Example lower_ex : PyStr.lower ".MP4" = ".mp4".
Proof. reflexivity. Qed.

Example remove_ex :
  PyStr.remove "bytes=" "bytes=10-bytes=20" = "10-20" /\
  PyStr.remove "bytes=" "bybytes=tes=1-2" = "bytes=1-2".
Proof. split; reflexivity. Qed.

Example split_ex :
  PyStr.split "-" "10-" = ["10"; ""] /\ PyStr.split "-" "" = [""] /\
  PyStr.split "-" "--5" = [""; ""; "5"].
Proof. repeat split; reflexivity. Qed.

Example int_ex :
  PyStr.int " +1_000 " = Some 1000 /\ PyStr.int "007" = Some 7 /\
  PyStr.int "-12" = Some (-12).
Proof. repeat split; reflexivity. Qed.

Example int_bad :
  PyStr.int "1__0" = None /\ PyStr.int "" = None /\ PyStr.int "12a" = None /\
  PyStr.int "+ 5" = None /\ PyStr.int "5_" = None.
Proof. repeat split; reflexivity. Qed.

Example suffix_ex :
  PyPath.suffix "dir/clip.tar.MP4" = ".MP4" /\ PyPath.suffix "a/b.mp4/" = ".mp4" /\
  PyPath.suffix "..mp4" = ".mp4".
Proof. repeat split; reflexivity. Qed.

Example suffix_none :
  PyPath.suffix ".mp4" = "" /\ PyPath.suffix "clip." = "" /\ PyPath.suffix "a.b/c" = "".
Proof. repeat split; reflexivity. Qed.

Example str_ex : PyStr.str (-4) = "-4" /\ PyStr.str 1048576 = "1048576".
Proof. split; reflexivity. Qed.

Example parse_range_ex :
  parse_range "bytes=1048576-2097151" 3145728 = Ok (1048576, 2097151) /\
  parse_range "bytes=5-" 10 = Ok (5, 9) /\
  parse_range "bytes=-5" 10 = Ok (0, 5) /\
  parse_range "bytes=5" 10 = Raise IndexError /\
  parse_range "bytes=a-5" 10 = Raise ValueError /\
  parse_range "bytes=a" 10 = Raise ValueError.
Proof. repeat split; reflexivity. Qed.

End PyFacts.

(** ** The chunked loops *)

Module FileIOFacts.
Import FileIO.

(** The equation that [inspect] leaves behind is of no further use. *)
Ltac drop_inspect :=
  repeat match goal with
         | H : sigmaI _ _ _ = sigmaI _ _ _ |- _ => clear H
         end.

Lemma CHUNK_SIZE_pos : 0 < CHUNK_SIZE.
Proof. reflexivity. Qed.

Lemma read_app n rest chunk rest' :
  read n rest = (chunk, rest') -> (chunk ++ rest')%list = rest.
Proof.
  unfold read. destruct (n <? 0); intros [= <- <-].
  - apply app_nil_r.
  - apply take_drop.
Qed.

Lemma read_nonneg n rest :
  0 <= n -> read n rest = (take (Z.to_nat n) rest, drop (Z.to_nat n) rest).
Proof. unfold read. intros Hn. destruct (Z.ltb_spec n 0); [lia | reflexivity]. Qed.

Lemma read_nil n rest rest' :
  0 < n -> read n rest = ([], rest') -> rest = [].
Proof.
  unfold read. intros Hn. destruct (n <? 0) eqn:E; [lia |].
  intros [= Ht _]. destruct rest as [|b rest]; [reflexivity |].
  destruct (Z.to_nat n) eqn:En; [lia | discriminate].
Qed.

Lemma full_chunks_unfold cs rest :
  full_chunks cs rest =
    match read cs rest with
    | ([], _) => []
    | (chunk, rest') => chunk :: full_chunks cs rest'
    end.
Proof.
  funelim (full_chunks cs rest).
  - now rewrite e.
  - now rewrite Hread.
Qed.


Lemma write_chunks_unfold cs fault k rest written file_size :
  write_chunks cs fault k rest written file_size =
    match read cs rest with
    | ([], _) => (written, Some file_size)
    | (chunk, rest') =>
        if decide (fault = Some k) then (written, None)
        else write_chunks cs fault (S k) rest' (written ++ chunk)%list
               (file_size + Z.of_nat (length chunk))
    end.
Proof.
  funelim (write_chunks cs fault k rest written file_size).
  - now rewrite e.
  - now rewrite Hread.
Qed.

(** The chunks of a full response, put end to end, are the file. *)
Lemma full_chunks_concat cs rest :
  0 < cs -> concat (full_chunks cs rest) = rest.
Proof.
  intros Hcs. funelim (full_chunks cs rest); drop_inspect.
  - symmetry. eapply read_nil; eauto.
  - simpl. rewrite H by assumption. eapply (read_app _ _ (b :: chunk)); eauto.
Qed.

(** No chunk is empty and none exceeds the chunk size. *)
Lemma full_chunks_bounded cs rest :
  0 < cs ->
  Forall (fun c => (0 < length c)%nat /\ Z.of_nat (length c) <= cs) (full_chunks cs rest).
Proof.
  intros Hcs. funelim (full_chunks cs rest); drop_inspect.
  - constructor.
  - constructor; [| auto]. split; [simpl; lia |].
    pose proof Hread as Hr. rewrite read_nonneg in Hr by lia.
    injection Hr as Ht _. rewrite <- Ht, length_take. lia.
Qed.

(** The chunks of a range response, put end to end, are the first
    [remaining] bytes behind the seek position, or all of them when the
    file ends before. *)
Lemma range_chunks_concat cs rest remaining :
  0 < cs ->
  concat (range_chunks cs rest remaining) = take (Z.to_nat remaining) rest.
Proof.
  intros Hcs. funelim (range_chunks cs rest remaining); drop_inspect.
  - replace (Z.to_nat remaining) with 0%nat by lia. now rewrite take_0.
  - apply read_nil in e; [| lia]. subst. now rewrite take_nil.
  - specialize (H Hcs). cbn [concat]. rewrite H. clear H Heqcall.
    pose proof e as Hr. rewrite read_nonneg in Hr by lia.
    injection Hr as Ht Hd.
    set (m := Z.to_nat (Z.min cs remaining)) in *.
    assert (Hlen : length (b :: data) = Nat.min m (length rest))
      by (rewrite <- Ht; apply length_take).
    rewrite <- Hd. rewrite <- Ht at 1.
    destruct (Nat.le_gt_cases m (length rest)) as [Hle | Hgt].
    + rewrite take_take_drop. f_equal. lia.
    + rewrite (drop_ge rest m) by lia. rewrite take_nil, app_nil_r.
      rewrite !take_ge by lia. reflexivity.
Qed.

(** Induction on the part of the upload that is still unread. *)
Lemma unread_ind (P : list byte -> Prop) :
  (forall rest,
      (forall rest', (length rest' < length rest)%nat -> P rest') -> P rest) ->
  forall rest, P rest.
Proof.
  intros Hstep rest. remember (length rest) as n eqn:Hn.
  revert rest Hn. induction n as [n IH] using lt_wf_ind.
  intros rest ->. apply Hstep. intros rest' Hlt. now apply (IH (length rest')).
Qed.

(** Without a failing write the loop copies the whole upload and counts
    its bytes. *)
Lemma write_chunks_complete cs k rest written file_size :
  0 < cs ->
  write_chunks cs None k rest written file_size
  = ((written ++ rest)%list, Some (file_size + Z.of_nat (length rest))).
Proof.
  intros Hcs. revert k written file_size.
  induction rest as [rest IH] using unread_ind. intros k written file_size.
  rewrite write_chunks_unfold.
  destruct (read cs rest) as [[|b chunk] rest'] eqn:Hread.
  - apply read_nil in Hread; [| assumption]. subst. simpl.
    now rewrite app_nil_r, Z.add_0_r.
  - destruct (decide (None = Some k)) as [? | _]; [discriminate |].
    rewrite IH by (eapply read_shrinks; [exact Hread | discriminate]).
    apply read_app in Hread. subst rest.
    rewrite <- app_assoc, length_app. do 2 f_equal. lia.
Qed.

(** Whenever the loop reports a size, the file holds the whole upload and
    the size is its length. *)
Lemma write_chunks_size cs fault k rest written file_size content n :
  0 < cs ->
  write_chunks cs fault k rest written file_size = (content, Some n) ->
  content = (written ++ rest)%list /\ n = file_size + Z.of_nat (length rest).
Proof.
  intros Hcs. revert k written file_size.
  induction rest as [rest IH] using unread_ind. intros k written file_size.
  rewrite write_chunks_unfold.
  destruct (read cs rest) as [[|b chunk] rest'] eqn:Hread.
  - intros [= <- <-]. apply read_nil in Hread; [| assumption]. subst. simpl.
    now rewrite app_nil_r, Z.add_0_r.
  - destruct (decide (fault = Some k)); [discriminate |].
    intros Hw. apply IH in Hw as [-> ->];
      [| eapply read_shrinks; [exact Hread | discriminate]].
    apply read_app in Hread. subst rest.
    rewrite <- app_assoc, length_app. split; [reflexivity | lia].
Qed.


End FileIOFacts.

(** ** The [Range] header *)

Module RangeFacts.

Lemma contains_lstrip c s : PyStr.contains c (PyStr.lstrip s) = true -> PyStr.contains c s = true.
Proof.
  induction s as [|a r IH]; simpl; [auto |].
  destruct (PyStr.isspace a); simpl; intros H; [| exact H].
  rewrite (IH H). apply orb_true_r.
Qed.

Lemma contains_rev_onto c s acc :
  PyStr.contains c (PyStr.rev_onto s acc) = PyStr.contains c s || PyStr.contains c acc.
Proof.
  revert acc. induction s as [|a r IH]; intros acc; simpl; [reflexivity |].
  rewrite IH. simpl. destruct (Ascii.eqb a c), (PyStr.contains c r); reflexivity.
Qed.

Lemma contains_strip c s : PyStr.contains c (PyStr.strip s) = true -> PyStr.contains c s = true.
Proof.
  unfold PyStr.strip. rewrite contains_rev_onto, orb_false_r.
  intros H%contains_lstrip. rewrite contains_rev_onto, orb_false_r in H.
  now apply contains_lstrip.
Qed.

(** No piece of a split contains the separator. *)
Lemma split_pieces sep s : Forall (fun p => PyStr.contains sep p = false) (PyStr.split sep s).
Proof.
  induction s as [|a r IH]; simpl.
  - repeat constructor.
  - destruct (Ascii.eqb a sep) eqn:E.
    + constructor; [reflexivity | exact IH].
    + destruct (PyStr.split sep r) as [|p ps]; [repeat constructor; simpl; now rewrite E |].
      inversion IH; subst. constructor; [simpl; now rewrite E | assumption].
Qed.

Lemma digits_go_nonneg s acc n b v m :
  0 <= acc -> PyStr.digits_go s acc n b = Some (v, m) -> 0 <= v.
Proof.
  revert acc n b. induction s as [|a r IH]; intros acc n b Hacc; simpl.
  - destruct b; [intros [= <- _]; assumption | discriminate].
  - destruct (PyStr.digit_val a) as [d|] eqn:Hd.
    + apply IH. unfold PyStr.digit_val in Hd.
      destruct (_ && _)%bool; [| discriminate]. injection Hd as <-. lia.
    + destruct (_ && _)%bool; [apply IH; assumption | discriminate].
Qed.

Lemma unsigned_int_nonneg s v : PyStr.unsigned_int s = Some v -> 0 <= v.
Proof.
  unfold PyStr.unsigned_int.
  destruct (PyStr.digits_go s 0 0 false) as [[w n]|] eqn:E; [| discriminate].
  destruct (_ <? _)%nat; [discriminate |]. intros [= <-].
  eapply digits_go_nonneg; [| exact E]. lia.
Qed.

(** [int] of a text without minus sign is not negative. *)
Lemma int_nonneg s v : PyStr.contains "-" s = false -> PyStr.int s = Some v -> 0 <= v.
Proof.
  intros Hs. unfold PyStr.int.
  assert (Ht : PyStr.contains "-" (PyStr.strip s) = false).
  { destruct (PyStr.contains "-" (PyStr.strip s)) eqn:E; [| reflexivity].
    apply contains_strip in E. congruence. }
  destruct (PyStr.strip s) as [|a r]; [apply unsigned_int_nonneg |].
  destruct (Ascii.eqb_spec a "+") as [-> | Hplus]; [apply unsigned_int_nonneg |].
  destruct (Ascii.eqb_spec a "-") as [-> | Hminus]; [simpl in Ht; discriminate |].
  intros H. apply (unsigned_int_nonneg (String a r)).
  rewrite <- H. clear -Hplus Hminus.
  destruct a as [[] [] [] [] [] [] [] []]; try reflexivity; congruence.
Qed.

(** The start of a parsed range is never negative. *)
Lemma parse_range_start_nonneg h file_size start end_ :
  parse_range h file_size = Ok (start, end_) -> 0 <= start.
Proof.
  unfold parse_range.
  pose proof (split_pieces "-" (PyStr.remove "bytes=" h)) as Hp.
  destruct (PyStr.split "-" (PyStr.remove "bytes=" h)) as [|p0 tl]; [discriminate |].
  inversion Hp as [|? ? H0 _]; subst. simpl.
  destruct p0 as [|a r].
  - destruct tl as [|[|? ?] ?]; simpl; try discriminate.
    + intros [= <- _]. lia.
    + destruct (PyStr.int _); [intros [= <- _]; lia | discriminate].
  - destruct (PyStr.int (String a r)) as [v|] eqn:E; simpl; [| discriminate].
    apply int_nonneg in E; [| assumption].
    destruct tl as [|[|? ?] ?]; simpl; try discriminate.
    + intros [= <- _]. assumption.
    + destruct (PyStr.int _); [intros [= <- _]; assumption | discriminate].
Qed.

(** An empty header value does not parse. *)
Lemma parse_range_empty file_size : parse_range "" file_size = Raise IndexError.
Proof. reflexivity. Qed.

End RangeFacts.

(** ** Streaming *)

Module StreamFacts.
Import FileIOFacts RangeFacts.

Lemma yielded_concat chunks : yielded chunks = Z.of_nat (length (concat chunks)).
Proof.
  unfold yielded. f_equal. induction chunks as [|c cs IH]; [reflexivity |].
  rewrite fmap_cons. cbn [sum_list_with concat]. rewrite length_app, IH. reflexivity.
Qed.

(** What the handler does once the row and the file are found: the view is
    counted and committed before the header is looked at. *)
Lemma stream_video_found s video_id v content range_header :
  videos s !! video_id = Some v ->
  files s !! backing_file v = Some content ->
  stream_video video_id range_header s =
    let file_size := Z.of_nat (length content) in
    match range_header with
    | Some (String c h) =>
        match parse_range (String c h) file_size with
        | Raise e => (Raise e, counted video_id v s)
        | Ok (start, end_) =>
            (Ok (StreamingResponse (iterfile_range content start end_) 206 None
                   (range_headers start end_ file_size)),
             counted video_id v s)
        end
    | _ =>
        (Ok (StreamingResponse (iterfile_full content) 200 (Some "video/mp4")
               [("Content-Length", PyStr.str file_size)]),
         counted video_id v s)
    end.
Proof.
  intros Hv Hf. unfold stream_video, bind, query_video, gets, commit_assign, ret, raise.
  rewrite Hv. fold (backing_file v). rewrite Hf, Hv. cbn [Video.flush fold_left].
  fold (counted video_id v s).
  destruct range_header as [[|c h]|]; try reflexivity.
  destruct (parse_range (String c h) _) as [[start end_]|e]; reflexivity.
Qed.

(** Neither 404 counts a view. *)
Lemma stream_video_no_row s video_id range_header :
  videos s !! video_id = None ->
  stream_video video_id range_header s = (Raise (HTTPException 404 "Video not found"), s).
Proof.
  intros Hv. unfold stream_video, bind, query_video, gets, raise. now rewrite Hv.
Qed.

Lemma stream_video_no_file s video_id v range_header :
  videos s !! video_id = Some v ->
  files s !! backing_file v = None ->
  stream_video video_id range_header s
  = (Raise (HTTPException 404 "Video file not found"), s).
Proof.
  intros Hv Hf. unfold stream_video, bind, query_video, gets, raise.
  rewrite Hv. fold (backing_file v). now rewrite Hf.
Qed.

Lemma counted_views s video_id v :
  videos (counted video_id v s) !! video_id
  = Some (Video.set (Video.SetViews (Video.views v + 1)) v).
Proof. unfold counted. simpl. apply lookup_insert_eq. Qed.


(** The bytes of a range response are the window of the file. *)
Lemma iterfile_range_window content start end_ :
  0 <= start ->
  exists chunks,
    iterfile_range content start end_ = Ok chunks /\
    concat chunks = take (Z.to_nat (end_ - start + 1)) (drop (Z.to_nat start) content).
Proof.
  intros H0. unfold iterfile_range, FileIO.seek.
  destruct (Z.ltb_spec start 0); [lia |].
  eexists; split; [reflexivity |].
  apply range_chunks_concat, CHUNK_SIZE_pos.
Qed.

Lemma iterfile_full_whole content :
  exists chunks, iterfile_full content = Ok chunks /\ concat chunks = content.
Proof.
  eexists; split; [reflexivity |]. apply full_chunks_concat, CHUNK_SIZE_pos.
Qed.


(** C2: for a file of size N and a Range header that parses to
    [(start, end)] with [0 <= start <= end < N], the range response
    delivers exactly [end - start + 1] bytes, and they are the slice
    [start..end] of the bytes that the full response of the same file
    delivers. *)
Theorem range_stream_is_slice_of_full_stream
  s video_id v content range_header start end_ :
  videos s !! video_id = Some v ->
  files s !! backing_file v = Some content ->
  parse_range range_header (Z.of_nat (length content)) = Ok (start, end_) ->
  0 <= start -> start <= end_ -> end_ < Z.of_nat (length content) ->
  exists part whole s1 s2,
    stream_video video_id (Some range_header) s
    = (Ok (StreamingResponse (Ok part) 206 None
             (range_headers start end_ (Z.of_nat (length content)))), s1) /\
    stream_video video_id None s
    = (Ok (StreamingResponse (Ok whole) 200 (Some "video/mp4")
             [("Content-Length", PyStr.str (Z.of_nat (length content)))]), s2) /\
    yielded part = end_ - start + 1 /\
    concat part
    = take (Z.to_nat (end_ - start + 1)) (drop (Z.to_nat start) (concat whole)).
Proof.
  intros Hv Hf Hp H0 Hse HeN.
  rewrite !(stream_video_found _ _ _ _ _ Hv Hf). cbv zeta.
  destruct range_header as [|c h]; [rewrite parse_range_empty in Hp; discriminate |].
  rewrite Hp.
  destruct (iterfile_range_window content start end_ H0) as (part & -> & Hpart).
  destruct (iterfile_full_whole content) as (whole & -> & Hwhole).
  exists part, whole, (counted video_id v s), (counted video_id v s).
  repeat split.
  - rewrite yielded_concat, Hpart, length_take, length_drop. lia.
  - now rewrite Hwhole.
Qed.

(** C3: for an existing file of size N served without Range header, the
    bytes yielded by the streaming loop number N, which is the value
    declared in the Content-Length header; put end to end they are the
    file. *)
Theorem full_stream_yields_declared_length s video_id v content range_header :
  videos s !! video_id = Some v ->
  files s !! backing_file v = Some content ->
  range_header = None \/ range_header = Some "" ->
  exists chunks s',
    stream_video video_id range_header s
    = (Ok (StreamingResponse (Ok chunks) 200 (Some "video/mp4")
             [("Content-Length", PyStr.str (yielded chunks))]), s') /\
    yielded chunks = Z.of_nat (length content) /\
    concat chunks = content.
Proof.
  intros Hv Hf Hrh.
  rewrite (stream_video_found _ _ _ _ _ Hv Hf). cbv zeta.
  destruct (iterfile_full_whole content) as (chunks & Hit & Hwhole).
  assert (Hy : yielded chunks = Z.of_nat (length content))
    by (now rewrite yielded_concat, Hwhole).
  exists chunks, (counted video_id v s).
  rewrite Hy. destruct Hrh as [-> | ->]; rewrite Hit; auto.
Qed.

End StreamFacts.

(** ** Metadata query *)

(** C10: for an existing video, [GET /api/video/{id}] answers with a
    snapshot of the record and leaves the whole state, hence every field of
    the stored record, view counter and processing status included, as it
    was. *)
Theorem get_video_info_pure_read s video_id v :
  videos s !! video_id = Some v ->
  get_video_info video_id s
  = (Ok (InfoReply (mkVideoInfo (Video.id v) (Video.title v) (Video.description v)
                      (Video.duration v) (Video.views v) (Video.upload_date v)
                      (Video.processed v))),
     s).
Proof.
  intros Hv. unfold get_video_info, bind, query_video, gets, ret. now rewrite Hv.
Qed.

Lemma get_video_info_state s video_id : (get_video_info video_id s).2 = s.
Proof.
  unfold get_video_info, bind, query_video, gets, ret, raise.
  destruct (videos s !! video_id); reflexivity.
Qed.

(** ** Ingestion and deletion *)

Lemma allowed_extensions_spec ext :
  ext ∈ allowed_extensions <->
  ext ∈ [".mp4"; ".avi"; ".mov"; ".mkv"; ".webm"; ".flv"].
Proof.
  unfold allowed_extensions.
  rewrite !elem_of_union, !elem_of_singleton, !elem_of_cons, elem_of_nil. tauto.
Qed.

Section Ingestion.

Variable jwt_decode : string -> option (option string).

Local Abbreviation authenticate := (get_current_user jwt_decode).
Local Abbreviation upload := (upload_video jwt_decode).
Local Abbreviation remove := (delete_video jwt_decode).

(** Authentication reads the [users] table and nothing else. *)
Lemma get_current_user_state token s : (authenticate token s).2 = s.
Proof.
  unfold get_current_user, bind, query_user_by_name, gets, ret, raise.
  destruct (token ≫= jwt_decode) as [[name|]|]; try reflexivity.
  destruct (find _ _); reflexivity.
Qed.

Lemma upload_video_rejected file title description token env s user :
  authenticate token s = (Ok user, s) ->
  extension_of file ∉ allowed_extensions ->
  upload file title description token env s
  = (Raise (HTTPException 400 "Invalid file type"), s).
Proof.
  intros Hu Hext. unfold upload_video, bind. rewrite Hu.
  fold (extension_of file). rewrite bool_decide_eq_false_2 by assumption.
  reflexivity.
Qed.

(** Past the extension test: the file is opened, the loop runs, and what
    follows depends on whether it reported a size. *)
Lemma upload_video_saved file title description token env s user :
  authenticate token s = (Ok user, s) ->
  extension_of file ∈ allowed_extensions ->
  let saved := FileIO.write_chunks FileIO.CHUNK_SIZE (write_fault env) 0
                 (upload_data file) [] 0 in
  let s1 := set_files (<[target_of file env := saved.1]> (files s)) s in
  upload file title description token env s =
    match saved.2 with
    | None => (Raise OSError, s1)
    | Some file_size =>
        let shown := match title with
                     | Some (String c t) => String c t
                     | _ => upload_filename file
                     end in
        match add_video shown description (uuid4 env +:+ extension_of file)
                (upload_filename file) file_size (User.id user) (utcnow env) s1 with
        | (Ok video, s2) =>
            (Ok (UploadReply "Video uploaded successfully" (Video.id video) "processing"),
             set_tasks (<[Video.id video := Scheduled]> (tasks s2)) s2)
        | (Raise e, s2) => (Raise e, s2)
        end
    end.
Proof.
  intros Hu Hext. unfold upload_video, bind. rewrite Hu.
  fold (extension_of file). rewrite bool_decide_eq_true_2 by assumption.
  cbn [negb]. fold (target_of file env).
  unfold write_file, modify. cbn [set_files files users videos next_video_id tasks].
  rewrite insert_insert_eq. cbv zeta.
  destruct (FileIO.write_chunks _ _ _ _ _ _).2; [| reflexivity].
  destruct (add_video _ _ _ _ _ _ _ _) as [[video|e] s2]; reflexivity.
Qed.


(** Whoever sends it, an upload with another extension changes nothing. *)
Lemma upload_video_bad_extension_state file title description token env s :
  extension_of file ∉ allowed_extensions ->
  exists e, upload file title description token env s = (Raise e, s).
Proof.
  intros Hext. unfold upload_video, bind.
  pose proof (get_current_user_state token s) as Hs.
  destruct (authenticate token s) as [[user|e] s0]; simpl in Hs; subst s0.
  - fold (extension_of file). rewrite bool_decide_eq_false_2 by assumption.
    eexists; reflexivity.
  - eexists; reflexivity.
Qed.


(** C6: after a successful upload the [file_size] of the new record is the
    number of bytes read from the upload and written to the file, whatever
    size the client declared. *)
Theorem recorded_size_is_bytes_written
  name data declared title description token env s message video_id status s' :
  upload (mkUploadFile name data declared) title description token env s
  = (Ok (UploadReply message video_id status), s') ->
  exists v,
    videos s' !! video_id = Some v /\
    files s' !! backing_file v = Some data /\
    Video.file_size v = Z.of_nat (length data) /\
    forall declared',
      upload (mkUploadFile name data declared') title description token env s
      = (Ok (UploadReply message video_id status), s').
Proof.
  intros Hup. set (file := mkUploadFile name data declared) in *.
  pose proof Hup as Hup0.
  pose proof (get_current_user_state token s) as Hs.
  destruct (authenticate token s) as [[user|e] s0] eqn:Hu; simpl in Hs; subst s0;
    [| unfold upload_video, bind in Hup; rewrite Hu in Hup; discriminate].
  destruct (decide (extension_of file ∈ allowed_extensions)) as [Hext | Hext];
    [| rewrite (upload_video_rejected _ _ _ _ _ _ _ Hu Hext) in Hup; discriminate].
  assert (Hsame : forall declared',
    upload (mkUploadFile name data declared') title description token env s
    = upload file title description token env s).
  { intros declared'. unfold upload_video. reflexivity. }
  rewrite (upload_video_saved _ _ _ _ _ _ _ Hu Hext) in Hup. cbv zeta in Hup.
  destruct (FileIO.write_chunks _ _ _ _ _ _) as [content [n|]] eqn:Hw;
    cbn [fst snd] in Hup; [| discriminate].
  apply FileIOFacts.write_chunks_size in Hw as [-> ->];
    [| apply FileIOFacts.CHUNK_SIZE_pos].
  unfold add_video in Hup. cbn [set_files files users videos next_video_id tasks] in Hup.
  destruct (filename_taken _ _); [discriminate |].
  injection Hup as <- <- <- <-.
  eexists. cbn [set_tasks set_next_video_id set_videos set_files files videos].
  rewrite lookup_insert_eq. split; [reflexivity |].
  unfold backing_file. cbn [Video.filename Video.file_size upload_data file].
  fold (target_of file env). rewrite lookup_insert_eq.
  repeat split. intros declared'. rewrite Hsame. exact Hup0.
Qed.

End Ingestion.

Section Deletion.

Variable jwt_decode : string -> option (option string).

Local Abbreviation authenticate := (get_current_user jwt_decode).
Local Abbreviation remove := (delete_video jwt_decode).


(** The state after the record [video_id] and the file [path] are gone. *)
Lemma delete_video_owned s token user video_id v :
  authenticate token s = (Ok user, s) ->
  videos s !! video_id = Some v ->
  Video.user_id v = User.id user ->
  remove video_id token s
  = (Ok (DeleteReply "Video deleted successfully"),
     set_videos (delete video_id (videos s))
       (set_files (delete (backing_file v) (files s)) s)).
Proof.
  intros Hu Hv Hown.
  unfold delete_video, bind, query_video_of, gets, modify, ret.
  rewrite Hu, Hv, Hown, Z.eqb_refl. fold (backing_file v).
  destruct (files s !! backing_file v) as [content|] eqn:Hf.
  - rewrite bool_decide_eq_true_2 by eauto. reflexivity.
  - rewrite bool_decide_eq_false_2 by (intros [? ?]; discriminate).
    rewrite (delete_id (files s) _ Hf).
    destruct s; reflexivity.
Qed.

(** Without a record of the caller under that key the answer is 404 and
    nothing changes. *)
Lemma delete_video_absent s token user video_id :
  authenticate token s = (Ok user, s) ->
  videos s !! video_id = None ->
  remove video_id token s = (Raise (HTTPException 404 "Video not found"), s).
Proof.
  intros Hu Hv. unfold delete_video, bind, query_video_of, gets, raise.
  now rewrite Hu, Hv.
Qed.


End Deletion.

(** ** Processing status along the runs of the server *)

Module StatusFacts.

Lemma flush_last_status dirty st v :
  Video.processing_status (Video.flush (dirty ++ [Video.SetProcessingStatus st]) v) = st.
Proof. unfold Video.flush. rewrite fold_left_app. reflexivity. Qed.

Lemma terminal_failed msg : terminal ("failed: " +:+ msg) = true.
Proof. reflexivity. Qed.

Lemma failed_not_completed msg : "failed: " +:+ msg <> "completed".
Proof. discriminate. Qed.

Lemma consistent_initial disk : consistent (initial disk).
Proof.
  split; simpl; intros i v H; rewrite lookup_empty in H; discriminate.
Qed.

Ltac by_key k j :=
  destruct (decide (k = j)) as [<- | ?];
  [rewrite ?lookup_insert_eq, ?lookup_delete_eq
  | rewrite ?lookup_insert_ne, ?lookup_delete_ne by assumption].

Lemma keys_below_step s s' :
  consistent s -> db_step s s' ->
  forall j w, videos s' !! j = Some w -> j < next_video_id s'.
Proof.
  intros [Hk Hs Hc] Hstep j w.
  destruct Hstep as [Hv Hn Ht | row Hrow Hv Hn Ht | i v n Hi Hv Hn Ht | i Hv Hn Ht
                    | i Hv Hn Ht | i v Hti Hi Hv Hn Ht | i v dirty msg Hi Hv Hn Ht
                    | i v Hi Hv Hn Ht];
    rewrite Hv, Hn.
  - apply Hk.
  - by_key (next_video_id s) j; [lia |]. intros H%Hk. lia.
  - by_key i j; [intros _; now apply (Hk _ _ Hi) | apply Hk].
  - by_key i j; [discriminate | apply Hk].
  - apply Hk.
  - by_key i j; [intros _; now apply (Hk _ _ Hi) | apply Hk].
  - by_key i j; [intros _; now apply (Hk _ _ Hi) | apply Hk].
  - by_key i j; [intros _; now apply (Hk _ _ Hi) | apply Hk].
Qed.

Lemma scheduled_pending_step s s' :
  consistent s -> db_step s s' ->
  forall j w, tasks s' !! j = Some Scheduled -> videos s' !! j = Some w ->
              Video.processing_status w = "pending".
Proof.
  intros [Hk Hs Hc] Hstep j w.
  destruct Hstep as [Hv Hn Ht | row Hrow Hv Hn Ht | i v n Hi Hv Hn Ht | i Hv Hn Ht
                    | i Hv Hn Ht | i v Hti Hi Hv Hn Ht | i v dirty msg Hi Hv Hn Ht
                    | i v Hi Hv Hn Ht];
    rewrite Hv, Ht.
  - apply Hs.
  - by_key (next_video_id s) j; [intros _ [= <-]; assumption | apply Hs].
  - by_key i j; [| apply Hs]. intros Hj [= <-]. apply (Hs _ _ Hj Hi).
  - by_key i j; [discriminate | apply Hs].
  - by_key i j; [discriminate | apply Hs].
  - by_key i j; [discriminate | apply Hs].
  - by_key i j; [discriminate | apply Hs].
  - by_key i j; [discriminate | apply Hs].
Qed.

Lemma completed_ok_step s s' :
  consistent s -> db_step s s' ->
  forall j w, videos s' !! j = Some w -> completed_with_result w.
Proof.
  intros [Hk Hs Hc] Hstep j w.
  destruct Hstep as [Hv Hn Ht | row Hrow Hv Hn Ht | i v n Hi Hv Hn Ht | i Hv Hn Ht
                    | i Hv Hn Ht | i v Hti Hi Hv Hn Ht | i v dirty msg Hi Hv Hn Ht
                    | i v Hi Hv Hn Ht];
    rewrite Hv.
  - apply Hc.
  - by_key (next_video_id s) j; [| apply Hc].
    intros [= <-] Hst. rewrite Hrow in Hst. discriminate.
  - by_key i j; [| apply Hc]. intros [= <-]. apply (Hc _ _ Hi).
  - by_key i j; [discriminate | apply Hc].
  - apply Hc.
  - by_key i j; [| apply Hc]. intros [= <-] Hst. discriminate.
  - by_key i j; [| apply Hc]. intros [= <-] Hst.
    rewrite flush_last_status in Hst. discriminate.
  - by_key i j; [| apply Hc]. intros [= <-] _. split; eexists; reflexivity.
Qed.

Lemma consistent_step s s' : consistent s -> db_step s s' -> consistent s'.
Proof.
  intros Hs Hstep. split.
  - now apply (keys_below_step s).
  - now apply (scheduled_pending_step s).
  - now apply (completed_ok_step s).
Qed.


End StatusFacts.

Section Runs.

Variable jwt_decode : string -> option (option string).
Variable get_password_hash : string -> string.

Import StatusFacts.

Local Abbreviation exec := (exec jwt_decode get_password_hash).
Local Abbreviation run := (run jwt_decode get_password_hash).

Lemma register_db_step u m p now s :
  db_step s (register get_password_hash u m p now s).2.
Proof.
  unfold register, bind, query_user_by_name, query_user_by_email, gets, modify, ret, raise.
  repeat (case_bool_decide; cbn [fst snd]); now apply step_none.
Qed.

Lemma upload_db_step file title description token env s :
  db_step s (upload_video jwt_decode file title description token env s).2.
Proof.
  pose proof (get_current_user_state jwt_decode token s) as Hs.
  destruct (get_current_user jwt_decode token s) as [[user|e] s0] eqn:Hu;
    simpl in Hs; subst s0;
    [| unfold upload_video, bind; rewrite Hu; now apply step_none].
  destruct (decide (extension_of file ∈ allowed_extensions)) as [Hext | Hext];
    [| rewrite (upload_video_rejected _ _ _ _ _ _ _ _ Hu Hext); now apply step_none].
  rewrite (upload_video_saved _ _ _ _ _ _ _ _ Hu Hext). cbv zeta.
  destruct (FileIO.write_chunks _ _ _ _ _ _).2 as [n|]; [| now apply step_none].
  unfold add_video. cbn [set_files files users videos next_video_id tasks].
  destruct (filename_taken _ _); [now apply step_none |].
  eapply step_insert; [| reflexivity ..]. reflexivity.
Qed.

Lemma stream_db_step video_id range_header s :
  db_step s (stream_video video_id range_header s).2.
Proof.
  destruct (videos s !! video_id) as [v|] eqn:Hv;
    [| rewrite StreamFacts.stream_video_no_row by assumption; now apply step_none].
  destruct (files s !! backing_file v) as [content|] eqn:Hf;
    [| rewrite (StreamFacts.stream_video_no_file _ _ v) by assumption; now apply step_none].
  rewrite (StreamFacts.stream_video_found _ _ _ _ _ Hv Hf). cbv zeta.
  assert (Hc : db_step s (counted video_id v s))
    by (eapply step_views; [exact Hv | reflexivity ..]).
  destruct range_header as [[|c h]|]; try exact Hc.
  destruct (parse_range _ _) as [[start end_]|e]; exact Hc.
Qed.

Lemma delete_db_step video_id token s :
  db_step s (delete_video jwt_decode video_id token s).2.
Proof.
  pose proof (get_current_user_state jwt_decode token s) as Hs.
  destruct (get_current_user jwt_decode token s) as [[user|e] s0] eqn:Hu;
    simpl in Hs; subst s0;
    [| unfold delete_video, bind; rewrite Hu; now apply step_none].
  destruct (videos s !! video_id) as [v|] eqn:Hv;
    [| rewrite (delete_video_absent _ _ _ _ _ Hu Hv); now apply step_none].
  destruct (Z.eqb_spec (Video.user_id v) (User.id user)) as [Hown | Hother].
  - rewrite (delete_video_owned _ _ _ _ _ _ Hu Hv Hown).
    eapply step_delete; reflexivity.
  - unfold delete_video, bind, query_video_of, gets, raise. rewrite Hu, Hv.
    destruct (Z.eqb_spec (Video.user_id v) (User.id user)); [contradiction |].
    now apply step_none.
Qed.

Lemma except_block_db_step video_id dirty msg h s :
  (except_block video_id dirty msg h s).2 = s \/
  exists v, videos s !! video_id = Some v /\
    (except_block video_id dirty msg h s).2
    = set_videos (<[video_id := Video.flush
                      (dirty ++ [Video.SetProcessingStatus ("failed: " +:+ msg)]) v]>
                    (videos s)) s.
Proof.
  unfold except_block, bind, query_video, gets, commit_assign, ret.
  destruct h; [| now left].
  destruct (videos s !! video_id) as [v|] eqn:Hv; [| now left].
  rewrite Hv. right. eauto.
Qed.

Lemma finish_after_except video_id dirty msg h s :
  db_step s
    (set_tasks (<[video_id := Finished]> (tasks (except_block video_id dirty msg h s).2))
       (except_block video_id dirty msg h s).2).
Proof.
  destruct (except_block_db_step video_id dirty msg h s) as [-> | (v & Hv & ->)].
  - eapply step_task_end; reflexivity.
  - eapply step_fail; [exact Hv | reflexivity ..].
Qed.

Lemma except_block_ok video_id dirty msg h s :
  (except_block video_id dirty msg h s).1 = Ok tt.
Proof.
  unfold except_block, bind, query_video, gets, commit_assign, ret.
  destruct h; [| reflexivity].
  destruct (videos s !! video_id) as [v|] eqn:Hv; [| reflexivity].
  now rewrite Hv.
Qed.

Lemma task_db_step video_id f s :
  db_step s (process_video_step video_id f s).2.
Proof.
  unfold process_video_step, bind at 1, gets.
  destruct (tasks s !! video_id) as [t|] eqn:Ht; [| now apply step_none].
  assert (Hend : db_step s (set_tasks (<[video_id := Finished]> (tasks s)) s))
    by (eapply step_task_end; reflexivity).
  assert (Hexc : forall dirty msg h,
    db_step s
      (bind (bind (except_block video_id dirty msg h) (fun _ => ret Finished))
         (fun t' => modify (fun s0 => set_tasks (<[video_id := t']> (tasks s0)) s0)) s).2).
  { intros dirty msg h. unfold bind, ret, modify.
    pose proof (except_block_ok video_id dirty msg h s) as Hok.
    pose proof (finish_after_except video_id dirty msg h s) as Hfin.
    destruct (except_block video_id dirty msg h s) as [[[]|e] s1];
      simpl in Hok; [exact Hfin | discriminate]. }
  destruct t.
  - (* Scheduled *)
    destruct f as [| | line msg h]; [| exact Hend |].
    + unfold process_video_claim. cbn [raises].
      unfold bind, query_video, gets, commit_assign, ret, modify.
      destruct (videos s !! video_id) as [v|] eqn:Hv; [| exact Hend].
      rewrite Hv. eapply step_claim; [exact Ht | exact Hv | reflexivity ..].
    + unfold process_video_claim.
      destruct (raises (Fault line msg h) Line153) as [[m1 h1]|] eqn:H153;
        [apply Hexc |].
      destruct (videos s !! video_id) as [v|] eqn:Hv.
      * destruct (raises (Fault line msg h) Line158) as [[m2 h2]|] eqn:H158.
        -- unfold bind at 1 2, query_video, gets. rewrite Hv. apply Hexc.
        -- unfold bind, query_video, gets, commit_assign, ret, modify.
           rewrite Hv, Hv.
           eapply step_claim; [exact Ht | exact Hv | reflexivity ..].
      * unfold bind, query_video, gets, ret, modify. rewrite Hv. exact Hend.
  - (* Sleeping *)
    destruct f as [| | line msg h]; [| exact Hend |].
    + unfold process_video_finish. cbn [raises].
      destruct (videos s !! video_id) as [v|] eqn:Hv.
      * unfold bind, query_video, gets, commit_assign, ret, modify. rewrite Hv, Hv.
        eapply step_complete; [exact Hv | reflexivity ..].
      * unfold bind at 1 2, query_video, gets. rewrite Hv. apply Hexc.
    + unfold process_video_finish.
      destruct (raises (Fault line msg h) Line169) as [[m1 h1]|] eqn:H169;
        [apply Hexc |].
      destruct (videos s !! video_id) as [v|] eqn:Hv.
      * destruct (raises (Fault line msg h) Line170) as [[m2 h2]|] eqn:H170.
        -- unfold bind at 1 2, query_video, gets. rewrite Hv. apply Hexc.
        -- unfold bind, query_video, gets, commit_assign, ret, modify.
           rewrite Hv, Hv.
           eapply step_complete; [exact Hv | reflexivity ..].
      * unfold bind at 1 2, query_video, gets. rewrite Hv. apply Hexc.
  - (* Finished *)
    destruct f; exact Hend.
Qed.

(** Every event is one of the steps. *)
Lemma exec_db_step e s : db_step s (exec e s).
Proof.
  destruct e; simpl.
  - apply register_db_step.
  - apply upload_db_step.
  - rewrite get_video_info_state. now apply step_none.
  - apply stream_db_step.
  - apply delete_db_step.
  - apply task_db_step.
Qed.

Lemma run_app evs1 evs2 s : run (evs1 ++ evs2) s = run evs2 (run evs1 s).
Proof. apply fold_left_app. Qed.

Lemma consistent_run evs s : consistent s -> consistent (run evs s).
Proof.
  revert s. induction evs as [|e evs IH]; intros s Hs; [exact Hs |].
  apply IH. eapply consistent_step; [exact Hs | apply exec_db_step].
Qed.


(** C7: in every state the server reaches from start-up, a record whose
    [processing_status] is "completed" has its duration and its thumbnail
    reference set: the only commit that writes "completed" writes both in
    the same update, so no committed state shows the status without
    them. *)
Theorem completed_implies_duration_and_thumbnail disk evs video_id v :
  videos (run evs (initial disk)) !! video_id = Some v ->
  Video.processing_status v = "completed" ->
  is_Some (Video.duration v) /\ is_Some (Video.thumbnail_path v).
Proof.
  intros Hv. eapply completed_ok; [| exact Hv].
  apply consistent_run, consistent_initial.
Qed.


End Runs.

(** ** The properties on the small installation *)

Module DemoFacts.
Import Demo.

Lemma uploaded_row : videos uploaded !! 1 = Some pending_row.
Proof. reflexivity. Qed.

Lemma uploaded_file : files uploaded !! backing_file pending_row = Some (upload_data clip).
Proof. reflexivity. Qed.

Lemma processed_row : videos processed !! 1 = Some completed_row.
Proof. reflexivity. Qed.

Lemma ann_authenticated s :
  users s = [ann] -> get_current_user decode (Some "ann") s = (Ok ann, s).
Proof.
  intros Hu. unfold get_current_user, bind, query_user_by_name, gets, ret.
  simpl. now rewrite Hu.
Qed.



Lemma range_stream_is_slice_of_full_stream_witness :
  exists part whole s1 s2,
    stream_video 1 (Some "bytes=1-3") uploaded
    = (Ok (StreamingResponse (Ok part) 206 None (range_headers 1 3 5)), s1) /\
    stream_video 1 None uploaded
    = (Ok (StreamingResponse (Ok whole) 200 (Some "video/mp4")
             [("Content-Length", PyStr.str 5)]), s2) /\
    yielded part = 3 - 1 + 1 /\
    concat part = take (Z.to_nat (3 - 1 + 1)) (drop (Z.to_nat 1) (concat whole)).
Proof.
  apply (StreamFacts.range_stream_is_slice_of_full_stream
           uploaded 1 pending_row (upload_data clip) "bytes=1-3" 1 3).
  - reflexivity.
  - reflexivity.
  - reflexivity.
  - lia.
  - lia.
  - simpl. lia.
Defined.

Lemma full_stream_yields_declared_length_witness :
  exists chunks s',
    stream_video 1 None uploaded
    = (Ok (StreamingResponse (Ok chunks) 200 (Some "video/mp4")
             [("Content-Length", PyStr.str (yielded chunks))]), s') /\
    yielded chunks = 5 /\
    concat chunks = [x01; x02; x03; x04; x05].
Proof.
  apply (StreamFacts.full_stream_yields_declared_length
           uploaded 1 pending_row (upload_data clip) None).
  - reflexivity.
  - reflexivity.
  - left. reflexivity.
Defined.

Lemma get_video_info_pure_read_witness :
  get_video_info 1 processed
  = (Ok (InfoReply (mkVideoInfo 1 "holiday.MP4" None (Some 120) 0
                      "2024-01-01T00:00:00" true)),
     processed).
Proof. apply (get_video_info_pure_read processed 1 completed_row). reflexivity. Defined.




Lemma recorded_size_is_bytes_written_witness :
  exists v,
    videos uploaded !! 1 = Some v /\
    files uploaded !! backing_file v = Some [x01; x02; x03; x04; x05] /\
    Video.file_size v = Z.of_nat (length [x01; x02; x03; x04; x05]) /\
    forall declared',
      upload_video decode (mkUploadFile "holiday.MP4" [x01; x02; x03; x04; x05] declared')
        None None (Some "ann") (env "c0ffee" None) registered
      = (Ok (UploadReply "Video uploaded successfully" 1 "processing"), uploaded).
Proof.
  apply (recorded_size_is_bytes_written decode "holiday.MP4" [x01; x02; x03; x04; x05]
           (Some 9000) None None (Some "ann") (env "c0ffee" None) registered
           "Video uploaded successfully" 1 "processing" uploaded).
  reflexivity.
Defined.



Lemma completed_implies_duration_and_thumbnail_witness :
  is_Some (Video.duration completed_row) /\ is_Some (Video.thumbnail_path completed_row).
Proof.
  apply (completed_implies_duration_and_thumbnail decode hash ∅
           [Register "ann" "ann@example.org" "secret" "2024-01-01T00:00:00";
            Upload clip None None (Some "ann") (env "c0ffee" None);
            Task 1 NoFault; Task 1 NoFault]
           1 completed_row).
  - reflexivity.
  - reflexivity.
Defined.


End DemoFacts.

(** * Further properties of the handlers *)

(** ** Streaming: refusals, malformed headers, windows and chunk sizes *)

Module StreamMore.
Import FileIO FileIOFacts RangeFacts StreamFacts.

(** No chunk of a range response is empty and none exceeds the chunk size. *)
Lemma range_chunks_bounded cs rest remaining :
  0 < cs ->
  Forall (fun c => (0 < length c)%nat /\ Z.of_nat (length c) <= cs)
         (range_chunks cs rest remaining).
Proof.
  intros Hcs. funelim (range_chunks cs rest remaining); drop_inspect.
  - constructor.
  - constructor.
  - constructor; [| auto]. split; [simpl; lia |].
    pose proof e as Hr. rewrite read_nonneg in Hr by lia.
    injection Hr as Ht _. rewrite <- Ht, length_take. lia.
Qed.


(** X2: when the record and the file exist and the Range header does not
    parse, the handler raises [ValueError] or [IndexError], and the view has
    been counted all the same. *)
Theorem stream_malformed_range_counts_view s video_id v content c h e :
  videos s !! video_id = Some v ->
  files s !! backing_file v = Some content ->
  parse_range (String c h) (Z.of_nat (length content)) = Raise e ->
  (e = ValueError \/ e = IndexError) /\
  exists s' v',
    stream_video video_id (Some (String c h)) s = (Raise e, s') /\
    videos s' !! video_id = Some v' /\
    Video.views v' = Video.views v + 1.
Proof.
  intros Hv Hf Hp. split.
  - revert Hp. unfold parse_range.
    destruct (_ !! 0%nat) as [[|a r]|]; [| |intros [= <-]; auto].
    + destruct (_ !! 1%nat) as [[|a r]|]; [discriminate | | intros [= <-]; auto].
      destruct (PyStr.int _); [discriminate | intros [= <-]; auto].
    + destruct (PyStr.int (String a r)); simpl; [| intros [= <-]; auto].
      destruct (_ !! 1%nat) as [[|a' r']|]; [discriminate | | intros [= <-]; auto].
      destruct (PyStr.int _); [discriminate | intros [= <-]; auto].
  - rewrite (stream_video_found _ _ _ _ _ Hv Hf). cbv zeta. rewrite Hp.
    eexists _, _. split; [reflexivity |]. split; [apply counted_views | reflexivity].
Qed.

(** X3: whatever the request, [stream_video] writes nothing but the view
    counter of the requested record: files, users, tasks, the key counter
    and every other record are as before, and the requested record differs
    from the stored one in [views] at most. *)
Theorem stream_video_frame s video_id range_header :
  let s' := (stream_video video_id range_header s).2 in
  files s' = files s /\ users s' = users s /\ tasks s' = tasks s /\
  next_video_id s' = next_video_id s /\
  (forall j, j <> video_id -> videos s' !! j = videos s !! j) /\
  (forall v', videos s' !! video_id = Some v' ->
     exists v, videos s !! video_id = Some v /\
               v' = Video.set (Video.SetViews (Video.views v')) v).
Proof.
  cbv zeta.
  destruct (videos s !! video_id) as [v|] eqn:Hv.
  2:{ rewrite stream_video_no_row by assumption. simpl.
      repeat split; auto. intros v' Hv'. congruence. }
  destruct (files s !! backing_file v) as [content|] eqn:Hf.
  2:{ rewrite (stream_video_no_file _ _ v) by assumption. simpl.
      repeat split; auto. intros v' Hv'. exists v. split; [reflexivity |].
      assert (v' = v) as -> by congruence. now destruct v. }
  assert (Hs : (stream_video video_id range_header s).2 = counted video_id v s).
  { rewrite (stream_video_found _ _ _ _ _ Hv Hf). cbv zeta.
    destruct range_header as [[|c h]|]; try reflexivity.
    destruct (parse_range _ _) as [[? ?]|?]; reflexivity. }
  rewrite Hs. unfold counted. cbn [set_videos files users tasks next_video_id videos].
  repeat split; auto.
  - intros j Hj. now rewrite lookup_insert_ne.
  - intros v'. rewrite lookup_insert_eq. intros [= <-]. exists v. now split.
Qed.

(** X4: every chunk that a response of [stream_video] yields, full or
    range, is non-empty and at most [CHUNK_SIZE] bytes long. *)
Theorem stream_chunks_bounded s video_id range_header chunks code media headers s' :
  stream_video video_id range_header s
  = (Ok (StreamingResponse (Ok chunks) code media headers), s') ->
  Forall (fun c => (0 < length c)%nat /\ Z.of_nat (length c) <= CHUNK_SIZE) chunks.
Proof.
  destruct (videos s !! video_id) as [v|] eqn:Hv;
    [| rewrite stream_video_no_row by assumption; discriminate].
  destruct (files s !! backing_file v) as [content|] eqn:Hf;
    [| rewrite (stream_video_no_file _ _ v) by assumption; discriminate].
  rewrite (stream_video_found _ _ _ _ _ Hv Hf). cbv zeta.
  assert (Hfull : forall code' media' headers' s0,
    (Ok (StreamingResponse (iterfile_full content) code' media' headers'), s0)
    = (Ok (StreamingResponse (Ok chunks) code media headers), s') ->
    Forall (fun c => (0 < length c)%nat /\ Z.of_nat (length c) <= CHUNK_SIZE) chunks).
  { intros ? ? ? ? H.
    assert (Hc : Ok (full_chunks CHUNK_SIZE content) = Ok chunks)
      by (unfold iterfile_full in H; congruence).
    assert (chunks = full_chunks CHUNK_SIZE content) as -> by congruence.
    apply full_chunks_bounded, CHUNK_SIZE_pos. }
  destruct range_header as [[|c h]|]; [now apply Hfull | | now apply Hfull].
  destruct (parse_range _ _) as [[start end_]|e]; [| discriminate].
  unfold iterfile_range. destruct (seek start content) as [rest|]; [| discriminate].
  intros H.
  assert (chunks = range_chunks CHUNK_SIZE rest (end_ - start + 1)) as -> by congruence.
  apply range_chunks_bounded, CHUNK_SIZE_pos.
Qed.

(** X5: for every Range header that parses, the body of the 206 response
    does not raise, and its bytes are the window of the file that starts at
    [start] and has [end - start + 1] bytes, cut at the end of the file. *)
Theorem range_stream_window s video_id v content range_header start end_ :
  videos s !! video_id = Some v ->
  files s !! backing_file v = Some content ->
  parse_range range_header (Z.of_nat (length content)) = Ok (start, end_) ->
  exists chunks s',
    stream_video video_id (Some range_header) s
    = (Ok (StreamingResponse (Ok chunks) 206 None
             (range_headers start end_ (Z.of_nat (length content)))), s') /\
    concat chunks
    = take (Z.to_nat (end_ - start + 1)) (drop (Z.to_nat start) content).
Proof.
  intros Hv Hf Hp.
  pose proof (parse_range_start_nonneg _ _ _ _ Hp) as H0.
  rewrite (stream_video_found _ _ _ _ _ Hv Hf). cbv zeta.
  destruct range_header as [|c h]; [rewrite parse_range_empty in Hp; discriminate |].
  rewrite Hp.
  destruct (iterfile_range_window content start end_ H0) as (chunks & -> & Hc).
  eauto.
Qed.


End StreamMore.

(** ** Decimal texts and the Range header *)

Module DecimalFacts.
Import RangeFacts.

Lemma digit_val_pretty_char d :
  (d < 10)%N -> PyStr.digit_val (pretty_N_char d) = Some (Z.of_N d).
Proof.
  intros Hd.
  assert (d = 0 \/ d = 1 \/ d = 2 \/ d = 3 \/ d = 4 \/ d = 5 \/ d = 6 \/ d = 7
          \/ d = 8 \/ d = 9)%N as H by lia.
  repeat (destruct H as [-> | H]; [reflexivity |]). now subst.
Qed.

(** Reading back what [pretty_N_go] wrote in front of [s]: [d] digits, the
    first of which is not zero. *)
Lemma digits_go_pretty x :
  (0 < x)%N ->
  exists d : nat,
    (0 < d)%nat /\ 10 ^ Z.of_nat (d - 1) <= Z.of_N x /\
    forall s acc n b,
      PyStr.digits_go (pretty_N_go x s) acc n b
      = PyStr.digits_go s (acc * 10 ^ Z.of_nat d + Z.of_N x) (n + d) true.
Proof.
  induction (N.lt_wf_0 x) as [x _ IH]. intros Hx.
  destruct (decide (x < 10)%N) as [Hsmall | Hbig].
  - exists 1%nat. split; [lia |]. split; [simpl; lia |]. intros s acc n b.
    rewrite pretty_N_go_step by assumption.
    rewrite N.div_small, pretty_N_go_0, N.mod_small by assumption.
    cbn [PyStr.digits_go]. rewrite digit_val_pretty_char by assumption.
    replace (acc * 10 ^ Z.of_nat 1 + Z.of_N x) with (10 * acc + Z.of_N x)
      by (change (10 ^ Z.of_nat 1) with 10; lia).
    now replace (n + 1)%nat with (S n) by lia.
  - assert (Hq : (0 < x `div` 10)%N) by (apply N.div_str_pos; lia).
    destruct (IH (x `div` 10)%N) as (d & Hd & Hlow & Hgo);
      [apply N.div_lt; lia | assumption |].
    exists (S d). split; [lia |].
    assert (Hdm : Z.of_N x = 10 * Z.of_N (x `div` 10) + Z.of_N (x `mod` 10)).
    { rewrite N2Z.inj_div, N2Z.inj_mod. change (Z.of_N 10) with 10.
      apply Z.div_mod. lia. }
    pose proof (N2Z.is_nonneg (x `mod` 10)) as Hr0.
    split.
    + replace (S d - 1)%nat with (S (d - 1)) by lia.
      rewrite Nat2Z.inj_succ, Z.pow_succ_r by lia. lia.
    + intros s acc n b. rewrite pretty_N_go_step, Hgo by assumption.
      cbn [PyStr.digits_go].
      rewrite digit_val_pretty_char by (apply N.mod_lt; lia).
      replace (acc * 10 ^ Z.of_nat (S d) + Z.of_N x)
        with (10 * (acc * 10 ^ Z.of_nat d + Z.of_N (x `div` 10)) + Z.of_N (x `mod` 10))
        by (rewrite Nat2Z.inj_succ, Z.pow_succ_r by lia; lia).
      now replace (n + S d)%nat with (S (n + d)) by lia.
Qed.

Lemma all_digits_pretty_go x s :
  all_digits s = true -> all_digits (pretty_N_go x s) = true.
Proof.
  revert s. induction (N.lt_wf_0 x) as [x _ IH]. intros s Hs.
  destruct (decide (0 < x)%N) as [Hx | Hx].
  - rewrite pretty_N_go_step by assumption. apply IH; [apply N.div_lt; lia |].
    cbn [all_digits]. rewrite Hs, andb_true_r. apply bool_decide_eq_true_2.
    rewrite digit_val_pretty_char by (apply N.mod_lt; lia). eauto.
  - replace x with 0%N by lia. now rewrite pretty_N_go_0.
Qed.

Lemma pretty_go_nonempty x s : (0 < x)%N -> pretty_N_go x s <> EmptyString.
Proof.
  revert s. induction (N.lt_wf_0 x) as [x _ IH]. intros s Hx.
  rewrite pretty_N_go_step by assumption.
  destruct (decide (0 < x `div` 10)%N) as [Hq | Hq].
  - apply IH; [apply N.div_lt; lia | assumption].
  - destruct (x `div` 10)%N as [|q] eqn:E; [| lia]. now rewrite pretty_N_go_0.
Qed.

(** [str(n)] of a natural number is a non-empty text of digits. *)
Lemma str_digits n :
  0 <= n -> all_digits (PyStr.str n) = true /\ PyStr.str n <> EmptyString.
Proof.
  intros Hn. unfold PyStr.str, pretty, pretty_Z.
  destruct n as [|q|q]; [split; [reflexivity | discriminate] | | lia].
  unfold pretty, pretty_positive, pretty, pretty_N.
  destruct (decide (N.pos q = 0%N)); [discriminate |]. split.
  - now apply all_digits_pretty_go.
  - apply pretty_go_nonempty. lia.
Qed.

Lemma digit_not_space a : is_Some (PyStr.digit_val a) -> PyStr.isspace a = false.
Proof.
  unfold PyStr.digit_val, PyStr.isspace. intros [d Hd].
  destruct ((48 <=? nat_of_ascii a)%nat && (nat_of_ascii a <=? 57)%nat) eqn:E;
    [| discriminate].
  apply andb_true_iff in E as [H1%Nat.leb_le H2%Nat.leb_le].
  repeat match goal with
         | |- context [(?x <=? ?y)%nat] => destruct (Nat.leb_spec x y); try lia
         | |- context [(?x =? ?y)%nat] => destruct (Nat.eqb_spec x y); try lia
         end; reflexivity.
Qed.

Lemma lstrip_digits s : all_digits s = true -> PyStr.lstrip s = s.
Proof.
  destruct s as [|a r]; [reflexivity |]. cbn [all_digits PyStr.lstrip].
  intros [Ha%bool_decide_eq_true_1 _]%andb_true_iff.
  now rewrite digit_not_space.
Qed.

Lemma all_digits_rev_onto s acc :
  all_digits s = true -> all_digits acc = true ->
  all_digits (PyStr.rev_onto s acc) = true.
Proof.
  revert acc. induction s as [|a r IH]; intros acc Hs Hacc; [assumption |].
  cbn [all_digits] in Hs. apply andb_true_iff in Hs as [Ha Hr].
  cbn [PyStr.rev_onto]. apply IH; [assumption |]. cbn [all_digits].
  now rewrite Ha, Hacc.
Qed.

Lemma rev_onto_rev_onto s acc acc' :
  PyStr.rev_onto (PyStr.rev_onto s acc) acc'
  = PyStr.rev_onto acc (s +:+ acc').
Proof.
  revert acc acc'. induction s as [|a r IH]; intros acc acc'; [reflexivity |].
  cbn [PyStr.rev_onto]. rewrite IH. reflexivity.
Qed.

Lemma strip_digits s : all_digits s = true -> PyStr.strip s = s.
Proof.
  intros Hs. unfold PyStr.strip. rewrite (lstrip_digits s Hs).
  rewrite lstrip_digits by now apply all_digits_rev_onto.
  rewrite rev_onto_rev_onto. cbn [PyStr.rev_onto]. clear Hs.
  induction s as [|a r IH]; [reflexivity |].
  change (String a r +:+ "") with (String a (r +:+ "")). now rewrite IH.
Qed.

Lemma digits_lack c s :
  PyStr.digit_val c = None -> all_digits s = true -> PyStr.contains c s = false.
Proof.
  intros Hc. induction s as [|a r IH]; [reflexivity |]. cbn [all_digits PyStr.contains].
  intros [Ha%bool_decide_eq_true_1 Hr]%andb_true_iff. rewrite (IH Hr), orb_false_r.
  destruct (Ascii.eqb_spec a c) as [-> | ?]; [| reflexivity].
  rewrite Hc in Ha. now destruct Ha.
Qed.

(** X7: [int(str(n)) = n] for every natural number [n] with at most 4300
    digits: the decimal text that [str] writes is read back by [int]. *)
Theorem int_str_roundtrip n :
  0 <= n -> n < 10 ^ Z.of_nat PyStr.MAX_STR_DIGITS ->
  PyStr.int (PyStr.str n) = Some n.
Proof.
  intros Hn Hmax. destruct (str_digits n Hn) as [Hd Hne].
  unfold PyStr.int. rewrite (strip_digits _ Hd).
  assert (Hu : PyStr.unsigned_int (PyStr.str n) = Some n).
  { unfold PyStr.unsigned_int, PyStr.str, pretty, pretty_Z.
    destruct n as [|q|q]; [reflexivity | | lia].
    unfold pretty, pretty_positive, pretty, pretty_N.
    destruct (decide (N.pos q = 0%N)); [discriminate |].
    destruct (digits_go_pretty (N.pos q)) as (d & Hd0 & Hlow & Hgo); [lia |].
    rewrite Hgo. cbn [PyStr.digits_go]. change (Z.of_N (N.pos q)) with (Z.pos q) in *.
    assert (Hle : (d <= PyStr.MAX_STR_DIGITS)%nat).
    { destruct (Nat.le_gt_cases d PyStr.MAX_STR_DIGITS) as [? | Hgt]; [assumption |].
      exfalso. assert (10 ^ Z.of_nat PyStr.MAX_STR_DIGITS <= 10 ^ Z.of_nat (d - 1))
        by (apply Z.pow_le_mono_r; lia). lia. }
    destruct (Nat.ltb_spec PyStr.MAX_STR_DIGITS (0 + d)); [lia |].
    reflexivity. }
  destruct (PyStr.str n) as [|a r] eqn:Hs; [congruence |].
  cbn [all_digits] in Hd. apply andb_true_iff in Hd as [Ha%bool_decide_eq_true_1 _].
  destruct (Ascii.eqb_spec a "+") as [-> | Hp]; [now destruct Ha |].
  destruct (Ascii.eqb_spec a "-") as [-> | Hm]; [now destruct Ha |].
  rewrite <- Hu. clear -Hp Hm.
  destruct a as [[] [] [] [] [] [] [] []]; try reflexivity; congruence.
Qed.

Lemma remove_prefix s : PyStr.remove "bytes=" ("bytes=" +:+ s) = PyStr.remove "bytes=" s.
Proof. reflexivity. Qed.

Lemma remove_without_b s :
  PyStr.contains "b" s = false -> PyStr.remove "bytes=" s = s.
Proof.
  unfold PyStr.remove. induction s as [|a r IH]; [reflexivity |].
  cbn [PyStr.contains]. intros [Ha Hr]%orb_false_iff.
  cbn [PyStr.remove_go PyStr.startswith]. rewrite Ascii.eqb_sym, Ha.
  now rewrite (IH Hr).
Qed.

Lemma contains_app c s t :
  PyStr.contains c (s +:+ t) = PyStr.contains c s || PyStr.contains c t.
Proof.
  induction s as [|a r IH]; [reflexivity |].
  change (String a r +:+ t) with (String a (r +:+ t)).
  cbn [PyStr.contains]. rewrite IH. apply orb_assoc.
Qed.

Lemma split_whole sep p : PyStr.contains sep p = false -> PyStr.split sep p = [p].
Proof.
  induction p as [|a r IH]; [reflexivity |]. cbn [PyStr.contains PyStr.split].
  intros [Ha Hr]%orb_false_iff. now rewrite Ha, (IH Hr).
Qed.

Lemma split_at sep p r :
  PyStr.contains sep p = false ->
  PyStr.split sep (p +:+ String sep r) = p :: PyStr.split sep r.
Proof.
  induction p as [|a q IH]; cbn [PyStr.contains].
  - intros _. change ("" +:+ String sep r) with (String sep r).
    cbn [PyStr.split]. now rewrite Ascii.eqb_refl.
  - intros [Ha Hq]%orb_false_iff.
    change (String a q +:+ String sep r) with (String a (q +:+ String sep r)).
    cbn [PyStr.split]. now rewrite Ha, (IH Hq).
Qed.

(** X8: a Range header written with decimal numbers parses to them:
    [bytes=a-b] gives [(a, b)], the open-ended [bytes=a-] gives
    [(a, file_size - 1)], and [bytes=-b] gives [(0, b)], the first [b + 1]
    bytes and not the last [b]. *)
Theorem parse_range_decimal a b file_size :
  0 <= a -> a < 10 ^ Z.of_nat PyStr.MAX_STR_DIGITS ->
  0 <= b -> b < 10 ^ Z.of_nat PyStr.MAX_STR_DIGITS ->
  parse_range ("bytes=" +:+ PyStr.str a +:+ "-" +:+ PyStr.str b) file_size = Ok (a, b) /\
  parse_range ("bytes=" +:+ PyStr.str a +:+ "-") file_size = Ok (a, file_size - 1) /\
  parse_range ("bytes=-" +:+ PyStr.str b) file_size = Ok (0, b).
Proof.
  intros Ha Ha' Hb Hb'.
  destruct (str_digits a Ha) as [Hda Hnea]. destruct (str_digits b Hb) as [Hdb Hneb].
  pose proof (int_str_roundtrip a Ha Ha') as Hia.
  pose proof (int_str_roundtrip b Hb Hb') as Hib.
  assert (Hba : PyStr.contains "b" (PyStr.str a) = false) by now apply digits_lack.
  assert (Hbb : PyStr.contains "b" (PyStr.str b) = false) by now apply digits_lack.
  assert (Hma : PyStr.contains "-" (PyStr.str a) = false) by now apply digits_lack.
  assert (Hmb : PyStr.contains "-" (PyStr.str b) = false) by now apply digits_lack.
  unfold parse_range. repeat split.
  - rewrite remove_prefix, remove_without_b
      by (rewrite contains_app; cbn [PyStr.contains]; rewrite contains_app, Hba, Hbb;
          reflexivity).
    change ("-" +:+ PyStr.str b) with (String "-" (PyStr.str b)).
    rewrite split_at, split_whole by assumption. cbn [lookup list_lookup].
    destruct (PyStr.str a) as [|c r]; [congruence |].
    destruct (PyStr.str b) as [|c' r']; [congruence |].
    rewrite Hia. cbn [from_option]. now rewrite Hib.
  - rewrite remove_prefix, remove_without_b
      by (rewrite contains_app, Hba; reflexivity).
    change (PyStr.str a +:+ "-") with (PyStr.str a +:+ String "-" "").
    rewrite split_at by assumption. cbn [PyStr.split lookup list_lookup].
    destruct (PyStr.str a) as [|c r]; [congruence |].
    rewrite Hia. reflexivity.
  - change ("bytes=-" +:+ PyStr.str b) with ("bytes=" +:+ String "-" (PyStr.str b)).
    rewrite remove_prefix, remove_without_b by (cbn [PyStr.contains]; now rewrite Hbb).
    change (String "-" (PyStr.str b)) with ("" +:+ String "-" (PyStr.str b)).
    rewrite split_at, split_whole by (assumption || reflexivity).
    cbn [lookup list_lookup].
    destruct (PyStr.str b) as [|c' r']; [congruence |].
    now rewrite Hib.
Qed.

End DecimalFacts.

Module TailFacts.
Import StreamFacts StreamMore DecimalFacts.

(** X9: an open-ended request [bytes=a-] with [a] inside the file is
    answered with the bytes from [a] to the end of the file, as many as the
    Content-Length header declares, under the Content-Range
    [bytes a-(N-1)/N]. *)
Theorem open_ended_range_serves_tail s video_id v content a :
  videos s !! video_id = Some v ->
  files s !! backing_file v = Some content ->
  0 <= a -> a < Z.of_nat (length content) ->
  a < 10 ^ Z.of_nat PyStr.MAX_STR_DIGITS ->
  exists chunks s',
    stream_video video_id (Some ("bytes=" +:+ PyStr.str a +:+ "-")) s
    = (Ok (StreamingResponse (Ok chunks) 206 None
             (range_headers a (Z.of_nat (length content) - 1)
                (Z.of_nat (length content)))), s') /\
    concat chunks = drop (Z.to_nat a) content /\
    yielded chunks = Z.of_nat (length content) - 1 - a + 1.
Proof.
  intros Hv Hf Ha HaN Hmax.
  destruct (parse_range_decimal a a (Z.of_nat (length content)) Ha Hmax Ha Hmax)
    as (_ & Hp & _).
  destruct (range_stream_window _ _ _ _ _ _ _ Hv Hf Hp) as (chunks & s' & Hs & Hc).
  exists chunks, s'. split; [exact Hs |].
  rewrite take_ge in Hc by (rewrite length_drop; lia).
  split; [exact Hc |]. rewrite yielded_concat, Hc, length_drop. lia.
Qed.

End TailFacts.

(** ** Authentication, ingestion and deletion: refusals and frames *)

Section AccessMore.

Variable jwt_decode : string -> option (option string).

Local Abbreviation authenticate := (get_current_user jwt_decode).
Local Abbreviation upload := (upload_video jwt_decode).
Local Abbreviation remove := (delete_video jwt_decode).

(** X10: [get_current_user] changes nothing; it either raises the 401
    "Could not validate credentials", or returns a row of [users] whose
    username is the subject that [jwt.decode] found in the token. *)
Theorem get_current_user_sound token s r s' :
  get_current_user jwt_decode token s = (r, s') ->
  s' = s /\
  (r = Raise (HTTPException 401 "Could not validate credentials") \/
   exists user tok,
     r = Ok user /\ user ∈ users s /\ token = Some tok /\
     jwt_decode tok = Some (Some (User.username user))).
Proof.
  unfold get_current_user, bind, query_user_by_name, gets, ret, raise.
  destruct token as [tok|]; cbn [mbind option_bind]; [| intros [= <- <-]; auto].
  destruct (jwt_decode tok) as [[name|]|] eqn:Hd; try (intros [= <- <-]; now auto).
  destruct (find _ _) as [u|] eqn:Hfind; intros [= <- <-]; [| now auto].
  split; [reflexivity |]. right. exists u, tok.
  apply find_some in Hfind as [Hin Heq%String.eqb_eq].
  rewrite Heq. repeat split; [now apply list_elem_of_In | exact Hd].
Qed.

(** X11: a request whose credentials are refused is refused as a whole:
    [upload_video] and [delete_video] raise the exception of
    [get_current_user] and leave the state, storage included, as it was. *)
Theorem refused_credentials_change_nothing
  token s e file title description env video_id :
  get_current_user jwt_decode token s = (Raise e, s) ->
  upload_video jwt_decode file title description token env s = (Raise e, s) /\
  delete_video jwt_decode video_id token s = (Raise e, s).
Proof.
  intros Hu. unfold upload_video, delete_video, bind. now rewrite Hu.
Qed.

(** The state an accepted upload leaves behind. *)
Lemma upload_video_accepted file title description token env s user :
  authenticate token s = (Ok user, s) ->
  extension_of file ∈ allowed_extensions ->
  write_fault env = None ->
  filename_taken (uuid4 env +:+ extension_of file) (videos s) = false ->
  upload file title description token env s
  = (Ok (UploadReply "Video uploaded successfully" (next_video_id s) "processing"),
     set_tasks (<[next_video_id s := Scheduled]> (tasks s))
       (set_next_video_id (next_video_id s + 1)
          (set_videos
             (<[next_video_id s :=
                  Video.mk (next_video_id s)
                    (match title with
                     | Some (String c t) => String c t
                     | _ => upload_filename file
                     end)
                    description (uuid4 env +:+ extension_of file)
                    (upload_filename file) (Z.of_nat (length (upload_data file)))
                    None None false "pending" (utcnow env) 0 (User.id user)]>
                (videos s))
             (set_files (<[target_of file env := upload_data file]> (files s)) s)))).
Proof.
  intros Hu Hext Hw Hfree.
  rewrite (upload_video_saved _ _ _ _ _ _ _ _ Hu Hext). cbv zeta.
  rewrite Hw, FileIOFacts.write_chunks_complete by apply FileIOFacts.CHUNK_SIZE_pos.
  cbn [fst snd app]. unfold add_video.
  cbn [set_files files users videos next_video_id tasks]. rewrite Hfree.
  reflexivity.
Qed.

(** X12: what was uploaded is what is streamed: after an accepted upload,
    a full stream of the new video yields the uploaded bytes, declares their
    number as Content-Length, and makes the view counter 1. *)
Theorem upload_then_stream_roundtrip file title description token env s user :
  get_current_user jwt_decode token s = (Ok user, s) ->
  extension_of file ∈ allowed_extensions ->
  write_fault env = None ->
  filename_taken (uuid4 env +:+ extension_of file) (videos s) = false ->
  exists chunks s' v',
    stream_video (next_video_id s) None
      (upload_video jwt_decode file title description token env s).2
    = (Ok (StreamingResponse (Ok chunks) 200 (Some "video/mp4")
             [("Content-Length", PyStr.str (Z.of_nat (length (upload_data file))))]),
       s') /\
    concat chunks = upload_data file /\
    videos s' !! next_video_id s = Some v' /\ Video.views v' = 1.
Proof.
  intros Hu Hext Hw Hfree.
  rewrite (upload_video_accepted _ _ _ _ _ _ _ Hu Hext Hw Hfree). cbn [snd].
  erewrite StreamFacts.stream_video_found;
    [| cbn [set_tasks set_next_video_id set_videos videos]; apply lookup_insert_eq
     | unfold backing_file; cbn [Video.filename set_tasks set_next_video_id set_videos
                                  set_files files];
       fold (target_of file env); apply lookup_insert_eq].
  cbv zeta.
  destruct (StreamFacts.iterfile_full_whole (upload_data file)) as (chunks & -> & Hc).
  eexists chunks, _, _. split; [reflexivity |]. split; [exact Hc |].
  split; [apply StreamFacts.counted_views | reflexivity].
Qed.

(** X13: after an accepted upload the metadata query of the new video
    shows the title (the given one, or the file name when none or an empty
    one was given), the description, no duration, zero views, the upload
    time and [processed = false]. *)
Theorem upload_then_info file title description token env s user :
  get_current_user jwt_decode token s = (Ok user, s) ->
  extension_of file ∈ allowed_extensions ->
  write_fault env = None ->
  filename_taken (uuid4 env +:+ extension_of file) (videos s) = false ->
  (get_video_info (next_video_id s) (upload_video jwt_decode file title description token env s).2).1
  = Ok (InfoReply
          (mkVideoInfo (next_video_id s)
             (match title with
              | Some (String c t) => String c t
              | _ => upload_filename file
              end)
             description None 0 (utcnow env) false)).
Proof.
  intros Hu Hext Hw Hfree.
  rewrite (upload_video_accepted _ _ _ _ _ _ _ Hu Hext Hw Hfree). cbn [snd].
  unfold get_video_info, bind, query_video, gets, ret.
  cbn [set_tasks set_next_video_id set_videos videos]. rewrite lookup_insert_eq.
  reflexivity.
Qed.

Lemma filename_taken_true name vs :
  filename_taken name vs = true ->
  exists k v, vs !! k = Some v /\ Video.filename v = name.
Proof.
  unfold filename_taken. intros H. apply existsb_exists in H as ([k v] & Hin & Heq).
  exists k, v. split.
  - apply elem_of_map_to_list. now apply list_elem_of_In.
  - now apply String.eqb_eq.
Qed.

Lemma filename_taken_false name vs k v :
  filename_taken name vs = false -> vs !! k = Some v -> Video.filename v <> name.
Proof.
  unfold filename_taken. intros H Hk Heq.
  assert (existsb (fun kv => String.eqb (Video.filename kv.2) name) (map_to_list vs) = true)
    as Ht; [| congruence].
  apply existsb_exists. exists (k, v). split.
  - apply list_elem_of_In. now apply elem_of_map_to_list.
  - now apply String.eqb_eq.
Qed.

(** X14: when the generated file name is already the [filename] of a
    record, the commit is refused with [IntegrityError] and no record or
    task is created, but the upload has been written by then: the file of
    that record now holds the bytes of the refused upload. *)
Theorem upload_name_collision_overwrites file title description token env s user :
  get_current_user jwt_decode token s = (Ok user, s) ->
  extension_of file ∈ allowed_extensions ->
  write_fault env = None ->
  filename_taken (uuid4 env +:+ extension_of file) (videos s) = true ->
  exists s' k v,
    upload_video jwt_decode file title description token env s = (Raise IntegrityError, s') /\
    videos s' = videos s /\ tasks s' = tasks s /\
    videos s !! k = Some v /\
    files s' !! backing_file v = Some (upload_data file).
Proof.
  intros Hu Hext Hw Htaken.
  destruct (filename_taken_true _ _ Htaken) as (k & v & Hk & Hname).
  rewrite (upload_video_saved _ _ _ _ _ _ _ _ Hu Hext). cbv zeta.
  rewrite Hw, FileIOFacts.write_chunks_complete by apply FileIOFacts.CHUNK_SIZE_pos.
  cbn [fst snd app]. unfold add_video.
  cbn [set_files files users videos next_video_id tasks]. rewrite Htaken.
  eexists _, k, v. split; [reflexivity |].
  cbn [set_files files videos tasks]. repeat split; [exact Hk |].
  unfold backing_file. rewrite Hname. fold (target_of file env).
  apply lookup_insert_eq.
Qed.

(** X15: a delete of a video that belongs to another user is answered
    like a delete of no video, with 404 "Video not found", and changes
    nothing. *)
Theorem delete_foreign_video_refused s token user video_id v :
  get_current_user jwt_decode token s = (Ok user, s) ->
  videos s !! video_id = Some v ->
  Video.user_id v <> User.id user ->
  delete_video jwt_decode video_id token s = (Raise (HTTPException 404 "Video not found"), s).
Proof.
  intros Hu Hv Hother. unfold delete_video, bind, query_video_of, gets, raise.
  rewrite Hu, Hv. destruct (Z.eqb_spec (Video.user_id v) (User.id user)); [contradiction |].
  reflexivity.
Qed.


End AccessMore.

(** ** Every event as a step of the tables *)

Section Shapes.

Variable jwt_decode : string -> option (option string).
Variable get_password_hash : string -> string.

Lemma find_none_absent (f : User.t -> string) name (l : list User.t) :
  find (fun u => String.eqb (f u) name) l = None -> name ∉ f <$> l.
Proof.
  induction l as [|u l IH]; cbn [find]; [intros _; apply not_elem_of_nil |].
  destruct (String.eqb_spec (f u) name) as [? | Hne]; [discriminate |].
  intros H. rewrite fmap_cons, not_elem_of_cons. split; [congruence | now apply IH].
Qed.

Lemma register_table_step u m p now s :
  table_step s (register get_password_hash u m p now s).2.
Proof.
  unfold register, bind, query_user_by_name, query_user_by_email, gets, modify, ret, raise.
  destruct (find _ (users s)) as [u0|] eqn:Hname.
  { rewrite bool_decide_eq_true_2 by eauto. now apply ts_same. }
  rewrite bool_decide_eq_false_2 by (intros [? ?]; discriminate).
  destruct (find (fun u1 => String.eqb (User.email u1) m) (users s)) as [u0|] eqn:Hmail.
  { rewrite bool_decide_eq_true_2 by eauto. now apply ts_same. }
  rewrite bool_decide_eq_false_2 by (intros [? ?]; discriminate).
  cbn [snd].
  eapply (ts_register _ _
            (User.mk (Z.of_nat (length (users s)) + 1) u m (get_password_hash p) now));
    try reflexivity.
  - now apply (find_none_absent User.username).
  - now apply (find_none_absent User.email).
Qed.

Lemma upload_table_step file title description token env s :
  table_step s (upload_video jwt_decode file title description token env s).2.
Proof.
  pose proof (get_current_user_state jwt_decode token s) as Hs.
  destruct (get_current_user jwt_decode token s) as [[user|e] s0] eqn:Hu;
    simpl in Hs; subst s0;
    [| unfold upload_video, bind; rewrite Hu; now apply ts_same].
  destruct (decide (extension_of file ∈ allowed_extensions)) as [Hext | Hext];
    [| rewrite (upload_video_rejected _ _ _ _ _ _ _ _ Hu Hext); now apply ts_same].
  rewrite (upload_video_saved _ _ _ _ _ _ _ _ Hu Hext). cbv zeta.
  destruct (FileIO.write_chunks _ _ _ _ _ _).2 as [n|]; [| now apply ts_same].
  unfold add_video. cbn [set_files files users videos next_video_id tasks].
  destruct (filename_taken _ _) eqn:Htaken; [now apply ts_same |].
  eapply ts_insert; [| | | | | | | reflexivity ..]; try reflexivity.
  exact Htaken.
Qed.

Lemma stream_table_step video_id range_header s :
  table_step s (stream_video video_id range_header s).2.
Proof.
  destruct (videos s !! video_id) as [v|] eqn:Hv;
    [| rewrite StreamFacts.stream_video_no_row by assumption; now apply ts_same].
  destruct (files s !! backing_file v) as [content|] eqn:Hf;
    [| rewrite (StreamFacts.stream_video_no_file _ _ v) by assumption; now apply ts_same].
  rewrite (StreamFacts.stream_video_found _ _ _ _ _ Hv Hf). cbv zeta.
  assert (Hc : table_step s (counted video_id v s))
    by (eapply ts_view; [exact Hv | reflexivity ..]).
  destruct range_header as [[|c h]|]; try exact Hc.
  destruct (parse_range _ _) as [[start end_]|e]; exact Hc.
Qed.

Lemma delete_table_step video_id token s :
  table_step s (delete_video jwt_decode video_id token s).2.
Proof.
  pose proof (get_current_user_state jwt_decode token s) as Hs.
  destruct (get_current_user jwt_decode token s) as [[user|e] s0] eqn:Hu;
    simpl in Hs; subst s0;
    [| unfold delete_video, bind; rewrite Hu; now apply ts_same].
  destruct (videos s !! video_id) as [v|] eqn:Hv;
    [| rewrite (delete_video_absent _ _ _ _ _ Hu Hv); now apply ts_same].
  destruct (Z.eqb_spec (Video.user_id v) (User.id user)) as [Hown | Hother].
  - rewrite (delete_video_owned _ _ _ _ _ _ Hu Hv Hown).
    eapply ts_delete; [exact Hv | reflexivity ..].
  - rewrite (delete_foreign_video_refused _ _ _ _ _ _ Hu Hv Hother).
    now apply ts_same.
Qed.

Lemma except_block_outcome video_id v dirty msg h s :
  videos s !! video_id = Some v \/ videos s !! video_id = None ->
  (forall w, videos s !! video_id = Some w -> task_dirty w dirty) ->
  task_outcome video_id s
    (bind (bind (except_block video_id dirty msg h) (fun _ => ret Finished))
       (fun t' => modify (fun s0 => set_tasks (<[video_id := t']> (tasks s0)) s0)) s).2.
Proof.
  intros _ Hdirty. unfold bind, ret, modify.
  pose proof (except_block_ok video_id dirty msg h s) as Hok.
  destruct (except_block_db_step video_id dirty msg h s) as [Hs | (w & Hw & Hs)];
    destruct (except_block video_id dirty msg h s) as [[[]|e] s1];
    simpl in Hok, Hs; try discriminate; subst s1; cbn [snd].
  - repeat split. now left.
  - repeat split. right. exists w. split; [exact Hw |]. right. left.
    exists dirty, msg. split; [now apply Hdirty | reflexivity].
Qed.

Lemma task_outcome_step video_id f s :
  task_outcome video_id s (process_video_step video_id f s).2.
Proof.
  unfold process_video_step, bind at 1, gets.
  destruct (tasks s !! video_id) as [t|] eqn:Ht;
    [| repeat split; now left].
  assert (Hend : task_outcome video_id s
                   (set_tasks (<[video_id := Finished]> (tasks s)) s))
    by (repeat split; now left).
  assert (Hexc : forall dirty msg h,
    (forall w, videos s !! video_id = Some w -> task_dirty w dirty) ->
    task_outcome video_id s
      (bind (bind (except_block video_id dirty msg h) (fun _ => ret Finished))
         (fun t' => modify (fun s0 => set_tasks (<[video_id := t']> (tasks s0)) s0)) s).2).
  { intros dirty msg h Hd.
    apply (except_block_outcome video_id
             (default (Video.mk 0 "" None "" "" 0 None None false "" "" 0 0)
                (videos s !! video_id))); [| exact Hd].
    destruct (videos s !! video_id); eauto. }
  destruct t.
  - (* Scheduled *)
    destruct f as [| | line msg h]; [| exact Hend |].
    + unfold process_video_claim. cbn [raises].
      unfold bind, query_video, gets, commit_assign, ret, modify.
      destruct (videos s !! video_id) as [v|] eqn:Hv; [| exact Hend].
      rewrite Hv. repeat split. right. exists v. split; [first [exact Hv | reflexivity] |]. left.
      split; [assumption | reflexivity].
    + unfold process_video_claim.
      destruct (raises (Fault line msg h) Line153) as [[m1 h1]|] eqn:H153;
        [apply Hexc; intros; now left |].
      destruct (videos s !! video_id) as [v|] eqn:Hv.
      * destruct (raises (Fault line msg h) Line158) as [[m2 h2]|] eqn:H158.
        -- unfold bind at 1 2, query_video, gets. rewrite Hv. apply Hexc.
           intros; right; now left.
        -- unfold bind, query_video, gets, commit_assign, ret, modify.
           rewrite Hv, Hv. repeat split. right. exists v. split; [first [exact Hv | reflexivity] |]. left.
           split; [assumption | reflexivity].
      * unfold bind, query_video, gets, ret, modify. rewrite Hv. exact Hend.
  - (* Sleeping *)
    destruct f as [| | line msg h]; [| exact Hend |].
    + unfold process_video_finish. cbn [raises].
      destruct (videos s !! video_id) as [v|] eqn:Hv.
      * unfold bind, query_video, gets, commit_assign, ret, modify. rewrite Hv, Hv.
        repeat split. right. exists v. split; [first [exact Hv | reflexivity] |]. right. right.
        split; [assumption | reflexivity].
      * unfold bind at 1 2, query_video, gets. rewrite Hv. apply Hexc.
        intros w Hw. discriminate.
    + unfold process_video_finish.
      destruct (raises (Fault line msg h) Line169) as [[m1 h1]|] eqn:H169;
        [apply Hexc; intros; right; right; now left |].
      destruct (videos s !! video_id) as [v|] eqn:Hv.
      * destruct (raises (Fault line msg h) Line170) as [[m2 h2]|] eqn:H170.
        -- unfold bind at 1 2, query_video, gets. rewrite Hv. apply Hexc.
           intros w [= <-]. right; right; now right.
        -- unfold bind, query_video, gets, commit_assign, ret, modify.
           rewrite Hv, Hv. repeat split. right. exists v. split; [first [exact Hv | reflexivity] |].
           right. right. split; [assumption | reflexivity].
      * unfold bind at 1 2, query_video, gets. rewrite Hv. apply Hexc.
        intros w Hw. discriminate.
  - (* Finished *)
    destruct f; exact Hend.
Qed.

Lemma task_table_step video_id f s :
  table_step s (process_video_step video_id f s).2.
Proof.
  destruct (task_outcome_step video_id f s)
    as (Hu & Hf & Hn & [Hv | (v & Hv & [[Ht Hv'] | [(dirty & msg & Hd & Hv') | [Ht Hv']]])]).
  - now apply ts_same.
  - now apply (ts_claim _ _ video_id v).
  - now apply (ts_fail _ _ video_id v dirty msg).
  - now apply (ts_complete _ _ video_id v).
Qed.

Lemma exec_table_step e s : table_step s (exec jwt_decode get_password_hash e s).
Proof.
  destruct e; simpl.
  - apply register_table_step.
  - apply upload_table_step.
  - rewrite get_video_info_state. now apply ts_same.
  - apply stream_table_step.
  - apply delete_table_step.
  - apply task_table_step.
Qed.

End Shapes.

(** ** What the runs keep *)

Module TableFacts.
Import StatusFacts.

Lemma set_identity a v : same_identity v (Video.set a v).
Proof. destruct a; repeat split. Qed.

Lemma same_identity_refl v : same_identity v v.
Proof. repeat split. Qed.

Lemma same_identity_trans u v w :
  same_identity u v -> same_identity v w -> same_identity u w.
Proof.
  unfold same_identity. intros (?&?&?&?&?&?&?&?) (?&?&?&?&?&?&?&?).
  repeat split; congruence.
Qed.

Lemma flush_identity dirty v : same_identity v (Video.flush dirty v).
Proof.
  revert v. induction dirty as [|a dirty IH]; intros v; [apply same_identity_refl |].
  eapply same_identity_trans; [apply (set_identity a) | apply IH].
Qed.

Lemma task_dirty_views v dirty st :
  task_dirty v dirty ->
  Video.views (Video.flush (dirty ++ [Video.SetProcessingStatus st]) v) = Video.views v.
Proof. intros [-> | [-> | [-> | ->]]]; reflexivity. Qed.

Lemma failed_shape v dirty msg :
  task_dirty v dirty -> processing_shape v ->
  processing_shape
    (Video.flush (dirty ++ [Video.SetProcessingStatus ("failed: " +:+ msg)]) v).
Proof.
  intros Hd (_ & Hstage & _ & _).
  assert (Hst : Video.processing_status
            (Video.flush (dirty ++ [Video.SetProcessingStatus ("failed: " +:+ msg)]) v)
          = "failed: " +:+ msg) by apply flush_last_status.
  split; [| split; [| split]].
  - rewrite Hst. right. right. right. reflexivity.
  - destruct Hd as [-> | [-> | [-> | ->]]].
    + exact Hstage.
    + exact Hstage.
    + destruct Hstage as [(_ & Ht & _) | [(_ & Ht & _) | (_ & Ht & _)]].
      * right. left. repeat split. exact Ht.
      * right. left. repeat split. exact Ht.
      * right. right. repeat split. exact Ht.
    + right. right. repeat split.
  - rewrite Hst. intros [H | H]; discriminate H.
  - rewrite Hst. intros H; discriminate H.
Qed.

(** [coherent] looks at the two tables and the key counter only. *)
Lemma coherent_ext s s' :
  users s' = users s -> videos s' = videos s -> next_video_id s' = next_video_id s ->
  coherent s -> coherent s'.
Proof.
  intros Hu Hv Hn [H1 H2 H3 H4 H5 H6 H7 H8].
  split; rewrite ?Hu, ?Hv, ?Hn; assumption.
Qed.

Lemma coherent_update s s' i v w :
  coherent s -> videos s !! i = Some v ->
  same_identity v w -> 0 <= Video.views w -> processing_shape w ->
  users s' = users s -> videos s' = <[i := w]> (videos s) ->
  next_video_id s' = next_video_id s -> coherent s'.
Proof.
  intros [H1 H2 H3 H4 H5 H6 H7 H8] Hi Hsame Hviews Hshape Hu Hv Hn.
  destruct Hsame as (Hid & _ & _ & Hfn & _).
  split; rewrite ?Hu, ?Hv, ?Hn; try assumption.
  - intros j x. by_key i j; [| apply H2]. intros [= <-]. rewrite Hid. now apply (H2 i v).
  - intros j k x y. by_key i j; by_key i k.
    + reflexivity.
    + intros [= <-] Hy Heq. apply (H3 i k v y); [assumption | assumption | congruence].
    + intros Hx [= <-] Heq. apply (H3 j i x v); [assumption | assumption | congruence].
    + apply H3.
  - intros j x. by_key i j; [| apply H4]. now intros [= <-].
  - intros j x. by_key i j; [| apply H5]. now intros [= <-].
Qed.

Lemma coherent_initial disk : coherent (initial disk).
Proof.
  split; cbn [initial users videos next_video_id]; try lia.
  - intros i v H. rewrite lookup_empty in H. discriminate.
  - intros i j v w H. rewrite lookup_empty in H. discriminate.
  - intros i v H. rewrite lookup_empty in H. discriminate.
  - intros i v H. rewrite lookup_empty in H. discriminate.
  - intros k u H. discriminate.
  - constructor.
  - constructor.
Qed.

Lemma coherent_step s s' :
  consistent s -> coherent s -> table_step s s' -> coherent s'.
Proof.
  intros Hcons Hcoh Hstep.
  destruct Hstep as [Hu Hv Hn | u Hid Hname Hmail Hu Hv Hn Hf
                    | row Hid Hd Ht Hp Hst Hvw Htaken Hu Hv Hn
                    | i v Hi Hu Hv Hn Hf | i v Hi Hu Hv Hn Hf
                    | i v Hti Hi Hu Hv Hn Hf | i v dirty msg Hi Hdirty Hu Hv Hn Hf
                    | i v Hi Hu Hv Hn Hf].
  - now apply (coherent_ext s).
  - destruct Hcoh as [H1 H2 H3 H4 H5 H6 H7 H8].
    split; rewrite ?Hu, ?Hv, ?Hn; try assumption.
    + intros k x Hk. apply lookup_app_Some in Hk as [Hk | [Hlen Hk]]; [now apply H6 |].
      destruct (k - length (users s))%nat as [|n] eqn:E; [| discriminate].
      injection Hk as <-. rewrite Hid. f_equal. lia.
    + rewrite fmap_app. apply NoDup_app. split; [assumption |]. split.
      * intros x Hx [-> | []%elem_of_nil]%elem_of_cons. contradiction.
      * apply NoDup_singleton.
    + rewrite fmap_app. apply NoDup_app. split; [assumption |]. split.
      * intros x Hx [-> | []%elem_of_nil]%elem_of_cons. contradiction.
      * apply NoDup_singleton.
  - pose proof (keys_below s Hcons) as Hkeys.
    destruct Hcoh as [H1 H2 H3 H4 H5 H6 H7 H8].
    split; rewrite ?Hu, ?Hv, ?Hn; try assumption; try lia.
    + intros j x. by_key (next_video_id s) j; [| apply H2]. intros [= <-]. split; [assumption | lia].
    + intros j k x y. by_key (next_video_id s) j; by_key (next_video_id s) k.
      * reflexivity.
      * intros [= <-] Hy Heq. exfalso.
        apply (filename_taken_false _ _ _ _ Htaken Hy). congruence.
      * intros Hx [= <-] Heq. exfalso.
        apply (filename_taken_false _ _ _ _ Htaken Hx). congruence.
      * apply H3.
    + intros j x. by_key (next_video_id s) j; [| apply H4]. intros [= <-]. lia.
    + intros j x. by_key (next_video_id s) j; [| apply H5]. intros [= <-].
      split; [left; assumption |]. split; [left; now repeat split |].
      split; [intros _; now repeat split | intros Hc; congruence].
  - eapply (coherent_update s s' i v); eauto.
    + apply set_identity.
    + pose proof (views_counted s Hcoh i v Hi). cbn. lia.
    + exact (rows_shaped s Hcoh i v Hi).
  - destruct Hcoh as [H1 H2 H3 H4 H5 H6 H7 H8].
    split; rewrite ?Hu, ?Hv, ?Hn; try assumption.
    + intros j x [_ Hx]%lookup_delete_Some. now apply H2.
    + intros j k x y [_ Hx]%lookup_delete_Some [_ Hy]%lookup_delete_Some.
      now apply H3.
    + intros j x [_ Hx]%lookup_delete_Some. now apply (H4 j).
    + intros j x [_ Hx]%lookup_delete_Some. now apply (H5 j).
  - eapply (coherent_update s s' i v); eauto.
    + apply set_identity.
    + exact (views_counted s Hcoh i v Hi).
    + pose proof (scheduled_pending s Hcons i v Hti Hi) as Hpend.
      destruct (rows_shaped s Hcoh i v Hi) as (_ & _ & Hbare & _).
      specialize (Hbare (or_introl Hpend)).
      split; [right; left; reflexivity |]. split; [left; exact Hbare |].
      split; [intros _; exact Hbare | intros Hc; discriminate Hc].
  - eapply (coherent_update s s' i v); eauto.
    + apply flush_identity.
    + rewrite task_dirty_views by assumption. exact (views_counted s Hcoh i v Hi).
    + apply failed_shape; [assumption | exact (rows_shaped s Hcoh i v Hi)].
  - eapply (coherent_update s s' i v); eauto.
    + apply flush_identity.
    + exact (views_counted s Hcoh i v Hi).
    + split; [right; right; left; reflexivity |].
      split; [right; right; now repeat split |].
      split; [intros [H | H]; discriminate H | intros _; now repeat split].
Qed.

End TableFacts.

Section RunsMore.

Variable jwt_decode : string -> option (option string).
Variable get_password_hash : string -> string.

Import StatusFacts TableFacts.

Local Abbreviation exec := (exec jwt_decode get_password_hash).
Local Abbreviation run := (run jwt_decode get_password_hash).
Local Abbreviation authenticate := (get_current_user jwt_decode).
Local Abbreviation remove := (delete_video jwt_decode).

Lemma invariants_run evs s :
  consistent s -> coherent s -> consistent (run evs s) /\ coherent (run evs s).
Proof.
  revert s. induction evs as [|e evs IH]; intros s Hc Hk; [now split |].
  apply IH.
  - eapply consistent_step; [exact Hc | apply exec_db_step].
  - eapply coherent_step; [exact Hc | exact Hk | apply exec_table_step].
Qed.

Lemma reachable_invariants disk evs :
  consistent (run evs (initial disk)) /\ coherent (run evs (initial disk)).
Proof. apply invariants_run; [apply consistent_initial | apply coherent_initial]. Qed.


Lemma backing_file_inj v w :
  backing_file v = backing_file w -> Video.filename v = Video.filename w.
Proof. unfold backing_file, PyPath.join, UPLOAD_DIR. cbn. now intros [= H]. Qed.

(** X18: in every state reached from start-up no two records share a
    file name, so a successful delete leaves every other record in place
    together with its backing file. *)
Theorem delete_keeps_other_videos disk evs token user i v j w :
  let s := run evs (initial disk) in
  get_current_user jwt_decode token s = (Ok user, s) ->
  videos s !! i = Some v -> Video.user_id v = User.id user ->
  videos s !! j = Some w -> j <> i ->
  Video.filename w <> Video.filename v /\
  videos (delete_video jwt_decode i token s).2 !! j = Some w /\
  files (delete_video jwt_decode i token s).2 !! backing_file w = files s !! backing_file w.
Proof.
  cbv zeta. intros Hu Hv Hown Hw Hji.
  destruct (reachable_invariants disk evs) as [_ Hk].
  assert (Hne : Video.filename w <> Video.filename v).
  { intros Heq. apply Hji. now apply (filenames_distinct _ Hk j i w v). }
  split; [exact Hne |].
  rewrite (delete_video_owned _ _ _ _ _ _ Hu Hv Hown).
  cbn [snd set_videos set_files videos files].
  rewrite lookup_delete_ne by congruence. split; [exact Hw |].
  apply lookup_delete_ne. intros Heq. apply Hne. symmetry. now apply backing_file_inj.
Qed.




(** X21: in every state reached from start-up the user names are pairwise
    distinct, so are the e-mail addresses, and the [id] of the k-th
    registered user is k. *)
Theorem accounts_distinct disk evs :
  NoDup (User.username <$> users (run evs (initial disk))) /\
  NoDup (User.email <$> users (run evs (initial disk))) /\
  forall k u, users (run evs (initial disk)) !! k = Some u -> User.id u = Z.of_nat k + 1.
Proof.
  destruct (reachable_invariants disk evs) as [_ Hk].
  split; [exact (usernames_distinct _ Hk) |].
  split; [exact (emails_distinct _ Hk) | exact (user_ids _ Hk)].
Qed.



(** X23: views are counted one per served request: a sequence of stream
    requests for a video whose record and file exist, whatever their Range
    headers, raises its view counter by the number of requests and leaves
    the rest of the record as it was. *)
Theorem sequential_streams_count s i v content headers :
  videos s !! i = Some v ->
  files s !! backing_file v = Some content ->
  videos (run (Stream i <$> headers) s) !! i
  = Some (Video.set (Video.SetViews (Video.views v + Z.of_nat (length headers))) v).
Proof.
  revert s v. induction headers as [|h hs IH]; intros s v Hv Hf.
  - cbn. rewrite Hv. f_equal. destruct v. cbn. f_equal. lia.
  - rewrite fmap_cons.
    change (run (Stream i h :: (Stream i <$> hs)) s)
      with (run (Stream i <$> hs) (stream_video i h s).2).
    assert (Hs : (stream_video i h s).2 = counted i v s).
    { rewrite (StreamFacts.stream_video_found _ _ _ _ _ Hv Hf). cbv zeta.
      destruct h as [[|c t]|]; try reflexivity.
      destruct (parse_range _ _) as [[? ?]|?]; reflexivity. }
    rewrite Hs.
    rewrite (IH (counted i v s) (Video.set (Video.SetViews (Video.views v + 1)) v));
      [| apply StreamFacts.counted_views | exact Hf].
    f_equal. cbn. f_equal. cbn [length]. lia.
Qed.

End RunsMore.

(** ** Accounts, login and listing *)

Section AccountsMore.

Variable jwt_decode : string -> option (option string).
Variable get_password_hash : string -> string.
Variable verify_password : string -> string -> bool.
Variable jwt_encode : gmap string claim -> string.

Local Abbreviation authenticate := (get_current_user jwt_decode).
Local Abbreviation signup := (register get_password_hash).
Local Abbreviation signin := (login verify_password jwt_encode).
Local Abbreviation listing := (list_videos jwt_decode).

Lemma find_present (f : User.t -> string) name (l : list User.t) :
  name ∈ f <$> l -> exists u, find (fun u => String.eqb (f u) name) l = Some u.
Proof.
  induction l as [|a l IH]; [intros []%elem_of_nil |].
  rewrite fmap_cons, elem_of_cons. cbn [find].
  destruct (String.eqb_spec (f a) name) as [? | Hne]; [eauto |].
  intros [? | Hin]; [congruence | now apply IH].
Qed.

(** X24: a registration under a user name that is taken is refused with
    400 "Username already registered"; under a free name but a taken
    e-mail address with 400 "Email already registered"; in both cases
    nothing changes. *)
Theorem register_duplicate_refused username email password now s :
  (username ∈ User.username <$> users s ->
   register get_password_hash username email password now s
   = (Raise (HTTPException 400 "Username already registered"), s)) /\
  (username ∉ User.username <$> users s -> email ∈ User.email <$> users s ->
   register get_password_hash username email password now s
   = (Raise (HTTPException 400 "Email already registered"), s)).
Proof.
  unfold register, bind, query_user_by_name, query_user_by_email, gets, raise. split.
  - intros [u Hu]%(find_present User.username). rewrite Hu.
    now rewrite bool_decide_eq_true_2 by eauto.
  - intros Hfree [u Hu]%(find_present User.email).
    destruct (find (fun u0 => String.eqb (User.username u0) username) (users s))
      as [u0|] eqn:Hname.
    { exfalso. apply Hfree. apply find_some in Hname as [Hin Heq%String.eqb_eq].
      rewrite <- Heq. apply list_elem_of_fmap_2. now apply list_elem_of_In. }
    rewrite bool_decide_eq_false_2 by (intros [? ?]; discriminate).
    rewrite Hu. now rewrite bool_decide_eq_true_2 by eauto.
Qed.

(** The state a successful registration leaves behind. *)
Lemma register_accepted username email password now s :
  username ∉ User.username <$> users s -> email ∉ User.email <$> users s ->
  signup username email password now s
  = (Ok (RegisterReply "User created successfully" (Z.of_nat (length (users s)) + 1)),
     set_users (users s ++ [User.mk (Z.of_nat (length (users s)) + 1) username email
                              (get_password_hash password) now])%list s).
Proof.
  intros Hname Hmail.
  unfold register, bind, query_user_by_name, query_user_by_email, gets, modify, ret.
  destruct (find (fun u0 => String.eqb (User.username u0) username) (users s))
    as [u0|] eqn:Hn.
  { exfalso. apply Hname. apply find_some in Hn as [Hin Heq%String.eqb_eq].
    rewrite <- Heq. apply list_elem_of_fmap_2. now apply list_elem_of_In. }
  rewrite bool_decide_eq_false_2 by (intros [? ?]; discriminate).
  destruct (find (fun u0 => String.eqb (User.email u0) email) (users s))
    as [u0|] eqn:Hm.
  { exfalso. apply Hmail. apply find_some in Hm as [Hin Heq%String.eqb_eq].
    rewrite <- Heq. apply list_elem_of_fmap_2. now apply list_elem_of_In. }
  rewrite bool_decide_eq_false_2 by (intros [? ?]; discriminate).
  reflexivity.
Qed.

Lemma find_new_user username (l : list User.t) u :
  username ∉ User.username <$> l -> User.username u = username ->
  find (fun u0 => String.eqb (User.username u0) username) (l ++ [u])%list = Some u.
Proof.
  intros Hfree Hu. induction l as [|a l IH]; cbn [app find].
  - now rewrite Hu, String.eqb_refl.
  - rewrite fmap_cons, not_elem_of_cons in Hfree. destruct Hfree as [Hne Hfree].
    destruct (String.eqb_spec (User.username a) username); [congruence | now apply IH].
Qed.

(** X25: register, log in, authenticate.  When [pwd_context.verify]
    accepts a password against its own hash and [jwt.decode] finds in a
    token the subject it was encoded with, a user who has just registered
    can log in with the same password, receives a bearer token that expires
    30 minutes later, and with it is authenticated as the registered
    account. *)
Theorem register_login_authenticate username email password now1 now2 s :
  verify_password password (get_password_hash password) = true ->
  (forall payload sub,
     payload !! "sub" = Some (ClaimStr sub) ->
     jwt_decode (jwt_encode payload) = Some (Some sub)) ->
  username ∉ User.username <$> users s -> email ∉ User.email <$> users s ->
  let s' := (register get_password_hash username email password now1 s).2 in
  let account := User.mk (Z.of_nat (length (users s)) + 1) username email
                   (get_password_hash password) now1 in
  let token := jwt_encode (<["exp" := ClaimTime (now2 + 30 * 60)]>
                             {["sub" := ClaimStr username]}) in
  login verify_password jwt_encode username password now2 s' = (Ok (mkToken token "bearer"), s') /\
  get_current_user jwt_decode (Some token) s' = (Ok account, s').
Proof.
  intros Hverify Hjwt Hname Hmail. cbv zeta.
  rewrite (register_accepted _ _ _ _ _ Hname Hmail). cbn [snd].
  assert (Hfind : find (fun u0 => String.eqb (User.username u0) username)
            (users s ++ [User.mk (Z.of_nat (length (users s)) + 1) username email
                           (get_password_hash password) now1])%list
          = Some (User.mk (Z.of_nat (length (users s)) + 1) username email
                    (get_password_hash password) now1))
    by now apply find_new_user.
  split.
  - unfold login, bind, query_user_by_name, gets, ret.
    cbn [set_users users]. rewrite Hfind. cbn [User.hashed_password User.username].
    now rewrite Hverify.
  - unfold get_current_user, bind, query_user_by_name, gets, ret.
    cbn [mbind option_bind].
    rewrite (Hjwt _ username)
      by (rewrite lookup_insert_ne by discriminate; apply lookup_singleton_eq).
    cbn [set_users users]. now rewrite Hfind.
Qed.

(** X26: [login] answers an unknown user name and a wrong password alike,
    with 401 "Incorrect username or password", and never changes the
    state. *)
Theorem login_refusals_alike username password now s :
  (login verify_password jwt_encode username password now s).2 = s /\
  (username ∉ User.username <$> users s \/
   (exists u, find (fun u0 => String.eqb (User.username u0) username) (users s) = Some u /\
              verify_password password (User.hashed_password u) = false) ->
   login verify_password jwt_encode username password now s
   = (Raise (HTTPException 401 "Incorrect username or password"), s)).
Proof.
  unfold login, bind, query_user_by_name, gets, ret, raise. split.
  - destruct (find _ _) as [u|]; [| reflexivity].
    destruct (verify_password _ _); reflexivity.
  - intros [Hfree | (u & Hu & Hbad)].
    + destruct (find _ _) as [u|] eqn:Hfind; [| reflexivity].
      exfalso. apply Hfree. apply find_some in Hfind as [Hin Heq%String.eqb_eq].
      rewrite <- Heq. apply list_elem_of_fmap_2. now apply list_elem_of_In.
    + now rewrite Hu, Hbad.
Qed.

Lemma rows_by_key_elem vs v :
  v ∈ rows_by_key vs <-> exists k, vs !! k = Some v.
Proof.
  unfold rows_by_key. rewrite list_elem_of_fmap. split.
  - intros ([k x] & -> & Hin). exists k.
    rewrite merge_sort_Permutation in Hin. now apply elem_of_map_to_list in Hin.
  - intros [k Hk]. exists (k, v). split; [reflexivity |].
    rewrite merge_sort_Permutation. now apply elem_of_map_to_list.
Qed.

Lemma offset_limit_sub {A} skip limit (rows : list A) x :
  x ∈ offset_limit skip limit rows -> x ∈ rows.
Proof.
  unfold offset_limit. destruct (limit <? 0); intros H.
  - eapply subseteq_drop; exact H.
  - eapply subseteq_drop, subseteq_take; exact H.
Qed.

Lemma offset_limit_length {A} skip limit (rows : list A) :
  0 <= limit -> Z.of_nat (length (offset_limit skip limit rows)) <= limit.
Proof.
  intros Hl. unfold offset_limit. destruct (Z.ltb_spec limit 0); [lia |].
  rewrite length_take. lia.
Qed.

(** X27: [list_videos] is a read: it leaves the state as it was; without
    valid credentials it raises what [get_current_user] raises; otherwise
    every entry of its reply is the projection of a stored record that
    belongs to the caller, and with a limit that is not negative the
    reply has at most [limit] entries. *)
Theorem list_videos_sound skip limit token s :
  (list_videos jwt_decode skip limit token s).2 = s /\
  (forall e, get_current_user jwt_decode token s = (Raise e, s) ->
             (list_videos jwt_decode skip limit token s).1 = Raise e) /\
  (forall items, (list_videos jwt_decode skip limit token s).1 = Ok items ->
     exists user,
       get_current_user jwt_decode token s = (Ok user, s) /\
       (forall item, item ∈ items ->
          exists k v, videos s !! k = Some v /\ item = item_of v /\
                      Video.user_id v = User.id user) /\
       (0 <= limit -> Z.of_nat (length items) <= limit)).
Proof.
  unfold list_videos, bind, gets, ret.
  pose proof (get_current_user_state jwt_decode token s) as Hs.
  destruct (authenticate token s) as [[user|e] s0]; simpl in Hs; subst s0.
  - split; [reflexivity |]. split; [discriminate |].
    cbn [fst]. intros items [= <-]. exists user. split; [reflexivity |]. split.
    + intros item (v & -> & Hin)%list_elem_of_fmap.
      apply offset_limit_sub, list_elem_of_In, filter_In in Hin as [Hin Hown].
      apply list_elem_of_In, rows_by_key_elem in Hin as [k Hk].
      exists k, v. repeat split; [assumption | now apply Z.eqb_eq].
    + intros Hl. rewrite length_fmap. now apply offset_limit_length.
  - split; [reflexivity |]. split; [now intros e' [= <-] | discriminate].
Qed.


End AccountsMore.

(** ** The background task *)

Module TaskFacts.
Import TableFacts.

Lemma claim_step s video_id v :
  tasks s !! video_id = Some Scheduled ->
  videos s !! video_id = Some v ->
  (process_video_step video_id NoFault s).2
  = set_tasks (<[video_id := Sleeping]> (tasks s))
      (set_videos
         (<[video_id := Video.set (Video.SetProcessingStatus "processing") v]>
            (videos s)) s).
Proof.
  intros Ht Hv.
  unfold process_video_step, process_video_claim, bind, query_video, gets,
    commit_assign, ret, modify. rewrite Ht. cbv beta iota. cbn [raises].
  now rewrite Hv, Hv.
Qed.

Lemma finish_step s video_id v :
  tasks s !! video_id = Some Sleeping ->
  videos s !! video_id = Some v ->
  (process_video_step video_id NoFault s).2
  = set_tasks (<[video_id := Finished]> (tasks s))
      (set_videos (<[video_id := Video.flush (result_assigns v) v]> (videos s)) s).
Proof.
  intros Ht Hv.
  unfold process_video_step, process_video_finish, bind, query_video, gets,
    commit_assign, ret, modify. rewrite Ht. cbv beta iota. cbn [raises].
  now rewrite Hv, Hv.
Qed.

(** X29: a task that meets no fault completes its record in two
    schedulings: from a record under its key, whatever its fields, it
    writes duration 120, [processed = true], status "completed" and the
    thumbnail path [thumbnails/<filename>.jpg], keeps every other field, and
    ends. *)
Theorem process_video_completes s video_id v :
  tasks s !! video_id = Some Scheduled ->
  videos s !! video_id = Some v ->
  let s1 := (process_video_step video_id NoFault s).2 in
  let s2 := (process_video_step video_id NoFault s1).2 in
  videos s1 !! video_id = Some (Video.set (Video.SetProcessingStatus "processing") v) /\
  tasks s1 !! video_id = Some Sleeping /\
  videos s2 !! video_id
  = Some (Video.mk (Video.id v) (Video.title v) (Video.description v)
            (Video.filename v) (Video.original_filename v) (Video.file_size v)
            (Some 120) (Some ("thumbnails/" +:+ Video.filename v +:+ ".jpg")) true
            "completed" (Video.upload_date v) (Video.views v) (Video.user_id v)) /\
  tasks s2 !! video_id = Some Finished.
Proof.
  intros Ht Hv. cbv zeta. rewrite (claim_step s video_id v Ht Hv).
  assert (H1v : videos (set_tasks (<[video_id := Sleeping]> (tasks s))
                  (set_videos
                     (<[video_id := Video.set (Video.SetProcessingStatus "processing") v]>
                        (videos s)) s)) !! video_id
                = Some (Video.set (Video.SetProcessingStatus "processing") v))
    by apply lookup_insert_eq.
  assert (H1t : tasks (set_tasks (<[video_id := Sleeping]> (tasks s))
                  (set_videos
                     (<[video_id := Video.set (Video.SetProcessingStatus "processing") v]>
                        (videos s)) s)) !! video_id = Some Sleeping)
    by apply lookup_insert_eq.
  split; [exact H1v |]. split; [exact H1t |].
  rewrite (finish_step _ video_id _ H1t H1v).
  cbn [set_tasks set_videos videos tasks]. rewrite !lookup_insert_eq.
  split; reflexivity.
Qed.

(** X30: a scheduling of a task, with or without fault, writes to the
    record under its own key at most: users, files and the key counter are
    as before, every other record is as before, no record appears or
    disappears, the record keeps its identity fields and its views, and
    when the record has been deleted in the meantime nothing is written at
    all. *)
Theorem process_video_frame video_id f s :
  let s' := (process_video_step video_id f s).2 in
  users s' = users s /\ files s' = files s /\ next_video_id s' = next_video_id s /\
  (forall j, j <> video_id -> videos s' !! j = videos s !! j) /\
  (videos s !! video_id = None -> videos s' = videos s) /\
  (forall v, videos s !! video_id = Some v ->
     exists w, videos s' !! video_id = Some w /\ same_identity v w /\
               Video.views w = Video.views v).
Proof.
  cbv zeta.
  destruct (task_outcome_step video_id f s)
    as (Hu & Hf & Hn & [Hv | (v & Hv & Hcase)]).
  - rewrite Hv. repeat split; auto. intros v' Hv'. exists v'.
    split; [assumption |]. split; [apply same_identity_refl | reflexivity].
  - assert (Hw : exists w, videos (process_video_step video_id f s).2
                           = <[video_id := w]> (videos s) /\
                           same_identity v w /\ Video.views w = Video.views v).
    { destruct Hcase as [[_ ->] | [(dirty & msg & Hd & ->) | [_ ->]]]; eexists;
        (split; [reflexivity |]).
      - split; [apply set_identity | reflexivity].
      - split; [apply flush_identity | now apply task_dirty_views].
      - split; [apply flush_identity | reflexivity]. }
    destruct Hw as (w & -> & Hsame & Hviews).
    repeat split; auto.
    + intros j Hj. now apply lookup_insert_ne.
    + congruence.
    + intros v' Hv'. assert (v' = v) as -> by congruence.
      exists w. now rewrite lookup_insert_eq.
Qed.

End TaskFacts.

(** ** The further properties on the small installation *)

Module DemoExtras.
Import Demo Demo2.

Lemma shared_rows :
  videos shared !! 1 = Some completed_row /\ videos shared !! 2 = Some talk_row /\
  users shared = [ann; bob].
Proof. repeat split; reflexivity. Qed.


Lemma stream_malformed_range_counts_view_witness :
  (IndexError = ValueError \/ IndexError = IndexError) /\
  exists s' v',
    stream_video 1 (Some "bytes=5") uploaded = (Raise IndexError, s') /\
    videos s' !! 1 = Some v' /\
    Video.views v' = Video.views pending_row + 1.
Proof.
  apply (StreamMore.stream_malformed_range_counts_view
           uploaded 1 pending_row (upload_data clip) "b" "ytes=5" IndexError);
    reflexivity.
Defined.

Lemma stream_chunks_bounded_witness :
  Forall (fun c => (0 < length c)%nat /\ Z.of_nat (length c) <= FileIO.CHUNK_SIZE)
         [[x02; x03; x04]].
Proof.
  apply (StreamMore.stream_chunks_bounded uploaded 1 (Some "bytes=1-3") [[x02; x03; x04]]
           206 None (range_headers 1 3 5) (counted 1 pending_row uploaded)).
  reflexivity.
Defined.

Lemma range_stream_window_witness :
  exists chunks s',
    stream_video 1 (Some "bytes=3-9") uploaded
    = (Ok (StreamingResponse (Ok chunks) 206 None (range_headers 3 9 5)), s') /\
    concat chunks
    = take (Z.to_nat (9 - 3 + 1)) (drop (Z.to_nat 3) [x01; x02; x03; x04; x05]).
Proof.
  apply (StreamMore.range_stream_window
           uploaded 1 pending_row (upload_data clip) "bytes=3-9" 3 9);
    reflexivity.
Defined.


Lemma int_str_roundtrip_witness : PyStr.int (PyStr.str 1048576) = Some 1048576.
Proof.
  apply (DecimalFacts.int_str_roundtrip 1048576); [lia | vm_compute; reflexivity].
Defined.

Lemma parse_range_decimal_witness :
  parse_range ("bytes=" +:+ PyStr.str 1048576 +:+ "-" +:+ PyStr.str 2097151) 3145728
  = Ok (1048576, 2097151) /\
  parse_range ("bytes=" +:+ PyStr.str 1048576 +:+ "-") 3145728
  = Ok (1048576, 3145728 - 1) /\
  parse_range ("bytes=-" +:+ PyStr.str 2097151) 3145728 = Ok (0, 2097151).
Proof.
  apply (DecimalFacts.parse_range_decimal 1048576 2097151 3145728);
    first [lia | vm_compute; reflexivity].
Defined.

Lemma open_ended_range_serves_tail_witness :
  exists chunks s',
    stream_video 1 (Some ("bytes=" +:+ PyStr.str 2 +:+ "-")) uploaded
    = (Ok (StreamingResponse (Ok chunks) 206 None (range_headers 2 (5 - 1) 5)), s') /\
    concat chunks = drop (Z.to_nat 2) [x01; x02; x03; x04; x05] /\
    yielded chunks = 5 - 1 - 2 + 1.
Proof.
  apply (TailFacts.open_ended_range_serves_tail
           uploaded 1 pending_row (upload_data clip) 2);
    first [reflexivity | lia | vm_compute; reflexivity].
Defined.

Lemma get_current_user_sound_witness :
  registered = registered /\
  (Ok ann = Raise (HTTPException 401 "Could not validate credentials") \/
   exists user tok,
     Ok ann = Ok user /\ user ∈ users registered /\ Some "ann" = Some tok /\
     decode tok = Some (Some (User.username user))).
Proof.
  apply (get_current_user_sound decode (Some "ann") registered (Ok ann) registered).
  reflexivity.
Defined.

Lemma refused_credentials_change_nothing_witness :
  upload_video decode clip None None (Some "eve") (env "c0ffee" None) registered
  = (Raise (HTTPException 401 "Could not validate credentials"), registered) /\
  delete_video decode 1 (Some "eve") registered
  = (Raise (HTTPException 401 "Could not validate credentials"), registered).
Proof.
  apply (refused_credentials_change_nothing decode (Some "eve") registered
           (HTTPException 401 "Could not validate credentials")
           clip None None (env "c0ffee" None) 1).
  reflexivity.
Defined.

Lemma clip_allowed : extension_of clip ∈ allowed_extensions.
Proof.
  apply (proj2 (allowed_extensions_spec (extension_of clip))).
  change (extension_of clip) with ".mp4". apply list_elem_of_here.
Qed.

Lemma other_allowed : extension_of other ∈ allowed_extensions.
Proof.
  apply (proj2 (allowed_extensions_spec (extension_of other))).
  change (extension_of other) with ".mp4". apply list_elem_of_here.
Qed.

Lemma upload_then_stream_roundtrip_witness :
  exists chunks s' v',
    stream_video (next_video_id registered) None
      (upload_video decode clip None None (Some "ann") (env "c0ffee" None) registered).2
    = (Ok (StreamingResponse (Ok chunks) 200 (Some "video/mp4")
             [("Content-Length", PyStr.str (Z.of_nat (length (upload_data clip))))]),
       s') /\
    concat chunks = upload_data clip /\
    videos s' !! next_video_id registered = Some v' /\ Video.views v' = 1.
Proof.
  apply (upload_then_stream_roundtrip decode clip None None (Some "ann")
           (env "c0ffee" None) registered ann);
    first [apply DemoFacts.ann_authenticated; reflexivity | apply clip_allowed
          | reflexivity].
Defined.

Lemma upload_then_info_witness :
  (get_video_info 1
     (upload_video decode clip (Some "") None (Some "ann") (env "c0ffee" None)
        registered).2).1
  = Ok (InfoReply (mkVideoInfo 1 "holiday.MP4" None None 0 "2024-01-01T00:00:00" false)).
Proof.
  apply (upload_then_info decode clip (Some "") None (Some "ann")
           (env "c0ffee" None) registered ann);
    first [apply DemoFacts.ann_authenticated; reflexivity | apply clip_allowed
          | reflexivity].
Defined.

Lemma upload_name_collision_overwrites_witness :
  exists s' k v,
    upload_video decode other None None (Some "ann") (env "c0ffee" None) uploaded
    = (Raise IntegrityError, s') /\
    videos s' = videos uploaded /\ tasks s' = tasks uploaded /\
    videos uploaded !! k = Some v /\
    files s' !! backing_file v = Some [xff].
Proof.
  apply (upload_name_collision_overwrites decode other None None (Some "ann")
           (env "c0ffee" None) uploaded ann);
    first [apply DemoFacts.ann_authenticated; reflexivity | apply other_allowed
          | reflexivity].
Defined.

Lemma bob_authenticated : get_current_user decode (Some "bob") shared = (Ok bob, shared).
Proof. reflexivity. Qed.

Lemma ann_still_authenticated :
  get_current_user decode (Some "ann") shared = (Ok ann, shared).
Proof. reflexivity. Qed.

Lemma delete_foreign_video_refused_witness :
  delete_video decode 1 (Some "bob") shared
  = (Raise (HTTPException 404 "Video not found"), shared).
Proof.
  apply (delete_foreign_video_refused decode shared (Some "bob") bob 1 completed_row).
  - exact bob_authenticated.
  - reflexivity.
  - discriminate.
Defined.



Lemma delete_keeps_other_videos_witness :
  Video.filename talk_row <> Video.filename completed_row /\
  videos (delete_video decode 1 (Some "ann")
            (run decode hash (history ++ sequel) (initial ∅))).2 !! 2 = Some talk_row /\
  files (delete_video decode 1 (Some "ann")
           (run decode hash (history ++ sequel) (initial ∅))).2 !! backing_file talk_row
  = files (run decode hash (history ++ sequel) (initial ∅)) !! backing_file talk_row.
Proof.
  apply (delete_keeps_other_videos decode hash ∅ (history ++ sequel) (Some "ann") ann
           1 completed_row 2 talk_row).
  - exact ann_still_authenticated.
  - reflexivity.
  - reflexivity.
  - reflexivity.
  - discriminate.
Defined.




Lemma sequential_streams_count_witness :
  videos (run decode hash (Stream 1 <$> [None; Some "bytes=0-1"; Some "junk"]) uploaded) !! 1
  = Some (Video.set
            (Video.SetViews
               (Video.views pending_row
                + Z.of_nat (length [None; Some "bytes=0-1"; Some "junk"])))
            pending_row).
Proof.
  apply (sequential_streams_count decode hash uploaded 1 pending_row (upload_data clip)
           [None; Some "bytes=0-1"; Some "junk"]);
    reflexivity.
Defined.

Lemma register_duplicate_refused_witness :
  register hash "ann" "new@example.org" "pw" "2024-01-03T00:00:00" registered
  = (Raise (HTTPException 400 "Username already registered"), registered) /\
  register hash "anna" "ann@example.org" "pw" "2024-01-03T00:00:00" registered
  = (Raise (HTTPException 400 "Email already registered"), registered).
Proof.
  split.
  - apply (proj1 (register_duplicate_refused hash "ann" "new@example.org" "pw"
                    "2024-01-03T00:00:00" registered)).
    apply list_elem_of_here.
  - apply (proj2 (register_duplicate_refused hash "anna" "ann@example.org" "pw"
                    "2024-01-03T00:00:00" registered)).
    + intros [H | H%elem_of_nil]%elem_of_cons; [discriminate H | exact H].
    + apply list_elem_of_here.
Defined.

Lemma register_login_authenticate_witness :
  let s' := (register hash "bob" "bob@example.org" "hunter2" "2024-01-02T00:00:00"
               registered).2 in
  let account := User.mk (Z.of_nat (length (users registered)) + 1) "bob"
                   "bob@example.org" (hash "hunter2") "2024-01-02T00:00:00" in
  let token := encode (<["exp" := ClaimTime (5000 + 30 * 60)]>
                         {["sub" := ClaimStr "bob"]}) in
  login verify encode "bob" "hunter2" 5000 s' = (Ok (mkToken token "bearer"), s') /\
  get_current_user decode (Some token) s' = (Ok account, s').
Proof.
  apply (register_login_authenticate decode hash verify encode "bob" "bob@example.org"
           "hunter2" "2024-01-02T00:00:00" 5000 registered).
  - reflexivity.
  - intros payload sub Hsub. unfold decode, encode. now rewrite Hsub.
  - intros [H | H%elem_of_nil]%elem_of_cons; [discriminate H | exact H].
  - intros [H | H%elem_of_nil]%elem_of_cons; [discriminate H | exact H].
Defined.

Lemma login_refusals_alike_witness :
  login verify encode "eve" "secret" 5000 registered
  = (Raise (HTTPException 401 "Incorrect username or password"), registered) /\
  login verify encode "ann" "guess" 5000 registered
  = (Raise (HTTPException 401 "Incorrect username or password"), registered).
Proof.
  split.
  - apply (proj2 (login_refusals_alike verify encode "eve" "secret" 5000 registered)).
    left. intros [H | H%elem_of_nil]%elem_of_cons; [discriminate H | exact H].
  - apply (proj2 (login_refusals_alike verify encode "ann" "guess" 5000 registered)).
    right. exists ann. split; reflexivity.
Defined.

Lemma list_videos_sound_witness :
  exists user,
    get_current_user decode (Some "bob") shared = (Ok user, shared) /\
    (forall item, item ∈ [item_of talk_row] ->
       exists k v, videos shared !! k = Some v /\ item = item_of v /\
                   Video.user_id v = User.id user) /\
    (0 <= 20 -> Z.of_nat (length [item_of talk_row]) <= 20).
Proof.
  apply (proj2 (proj2 (list_videos_sound decode 0 20 (Some "bob") shared))).
  reflexivity.
Defined.


Lemma process_video_completes_witness :
  let s1 := (process_video_step 1 NoFault uploaded).2 in
  let s2 := (process_video_step 1 NoFault s1).2 in
  videos s1 !! 1 = Some (Video.set (Video.SetProcessingStatus "processing") pending_row) /\
  tasks s1 !! 1 = Some Sleeping /\
  videos s2 !! 1 = Some completed_row /\
  tasks s2 !! 1 = Some Finished.
Proof.
  apply (TaskFacts.process_video_completes uploaded 1 pending_row); reflexivity.
Defined.

End DemoExtras.
